(** * Frigate: shared-memory planning, detector start-up, ONNX post-processing
      and the supervisor's start/stop sequences

    A shallow embedding of [frigate/app.py] (class [FrigateApp]) and of
    [frigate/detectors/plugins/onnx.py] (class [ONNXDetector]).

    Python [float] values are IEEE-754 binary64 numbers; they are modelled
    with the executable specification of the Standard Library
    ([SpecFloat], round-to-nearest-even), so that every arithmetic step of
    [check_shm] is the one CPython performs. *)

From Stdlib Require Import ZArith Bool Lia.
From Stdlib Require Import Floats.SpecFloat.
From stdpp Require Import base option list strings gmap.

Local Open Scope Z_scope.

(** ** Python exceptions and results *)

Inductive exn :=
  | FileExistsError
  | FileNotFoundError
  | ValueError
  | OverflowError
  | ZeroDivisionError
  | AttributeError
  | KeyError
  | IndexError
  | PyException (msg : string)      (* [raise Exception(msg)] *)
  | ExternalError (origin : string) (* raised inside a collaborator *)
  | SystemExit (code : Z)           (* [sys.exit(code)] *)
  | OsExit (code : Z).              (* [os._exit(code)]: the process is gone *)

(** What [except Exception] catches. *)
Definition is_Exception (e : exn) : bool :=
  match e with
  | SystemExit _ | OsExit _ => false
  | _ => true
  end.

Inductive result (A : Type) :=
  | Ok (a : A)
  | Raise (e : exn).
Arguments Ok {A} a.
Arguments Raise {A} e.

#[global] Instance result_ret : MRet result := λ A a, Ok a.
#[global] Instance result_bind : MBind result := λ A B k r,
  match r with
  | Ok a => k a
  | Raise e => Raise e
  end.

(** ** Python floats *)

Module PyFloat.

Abbreviation float := spec_float.

Definition prec : Z := 53.
Definition emax : Z := 1024.

Definition add := SFadd prec emax.
Definition sub := SFsub prec emax.
Definition mul := SFmul prec emax.
Definition div := SFdiv prec emax.
Definition leb := SFleb.
Definition ltb := SFltb.
Definition eqb := SFeqb.

Definition pzero : float := S754_zero false.

(** The binary64 number nearest to [m * 2^e] (ties to even); an infinity
    when it is out of range. *)
Definition of_scaled (m e : Z) : float := binary_normalize prec emax m e false.

(** The binary64 number nearest to the integer [n]. *)
Definition nearest (n : Z) : float := of_scaled n 0.

(** [float(n)], as done implicitly when an [int] meets a [float] in an
    arithmetic operation: [OverflowError] when [n] is too large. *)
Definition of_int (n : Z) : result float :=
  match nearest n with
  | S754_infinity _ => Raise OverflowError
  | x => Ok x
  end.

(** A literal or a small integer constant of the source; exact. *)
Definition lit (n : Z) : float := nearest n.

(** The literal [1.5]. *)
Definition one_and_half : float := of_scaled 3 (-1).

Definition is_zero (x : float) : bool :=
  match x with S754_zero _ => true | _ => false end.

(** [x / y] on floats: [ZeroDivisionError] for a zero divisor. *)
Definition truediv (x y : float) : result float :=
  if is_zero y then Raise ZeroDivisionError else Ok (div x y).

(** [n / d] on two ints, [d > 0]: the correctly rounded quotient,
    [OverflowError] when it is too large for a float. *)
Definition int_truediv (n : Z) (d : positive) : result float :=
  match n with
  | Z0 => Ok pzero
  | Zpos p =>
      match div (S754_finite false p 0) (S754_finite false d 0) with
      | S754_infinity _ => Raise OverflowError
      | x => Ok x
      end
  | Zneg p =>
      match div (S754_finite true p 0) (S754_finite false d 0) with
      | S754_infinity _ => Raise OverflowError
      | x => Ok x
      end
  end.

(** Nearest integer to [n / d] for [n ≥ 0], ties to even. *)
Definition div_half_even (n : Z) (d : Z) : Z :=
  let q := n `div` d in
  let r := n `mod` d in
  match (2 * r) ?= d with
  | Lt => q
  | Gt => q + 1
  | Eq => if Z.even q then q else q + 1
  end.

(** The magnitude of a finite float as a fraction [n / d]. *)
Definition magnitude (m : positive) (e : Z) : Z * Z :=
  match e with
  | Zneg k => (Zpos m, 2 ^ Zpos k)
  | _ => (Zpos m * 2 ^ e, 1)
  end.

(** [round(x, 1)]: the decimal with one fractional digit nearest to the
    exact value of [x] (ties to even), converted back to the nearest
    float.  Zeros, infinities and NaN round to themselves. *)
Definition round1 (x : float) : float :=
  match x with
  | S754_finite s m e =>
      let (n, d) := magnitude m e in
      match div_half_even (10 * n) d with
      | Zpos k => div (S754_finite s k 0) (S754_finite false 10 0)
      | _ => S754_zero s
      end
  | _ => x
  end.

(** [int(x)]: truncation towards zero. *)
Definition to_int (x : float) : result Z :=
  match x with
  | S754_zero _ => Ok 0
  | S754_finite s m e =>
      let (n, d) := magnitude m e in
      Ok (cond_Zopp s (n `div` d))
  | S754_infinity _ => Raise OverflowError
  | S754_nan => Raise ValueError
  end.

(** [math.floor(x)]: the largest integer not above [x]. *)
Definition floor (x : float) : result Z :=
  match x with
  | S754_zero _ => Ok 0
  | S754_finite s m e =>
      let (n, d) := magnitude m e in
      Ok (if s then - ((n + d - 1) `div` d) else n `div` d)
  | S754_infinity _ => Raise OverflowError
  | S754_nan => Raise ValueError
  end.

(** [round(x)] with one argument: the nearest integer, ties to even. *)
Definition round0 (x : float) : result Z :=
  match x with
  | S754_zero _ => Ok 0
  | S754_finite s m e =>
      let (n, d) := magnitude m e in
      Ok (cond_Zopp s (div_half_even n d))
  | S754_infinity _ => Raise OverflowError
  | S754_nan => Raise ValueError
  end.

End PyFloat.


(** ** The configuration snapshot

    The classes of [frigate.config] are not part of the sources at hand;
    the records below hold the attributes that [app.py] and [onnx.py] read. *)

Record DetectConfig := { width : Z; height : Z }.

Record CameraConfig := {
  enabled : bool;
  detect : DetectConfig;
  audio_enabled : bool;
}.

Inductive ModelTypeEnum :=
  | yolonas
  | other_model (label : string).

Inductive PixelFormatEnum := rgb | bgr | yuv.

Record ModelConfig := {
  model_path : string;
  model_height : Z;
  model_width : Z;
  model_type : ModelTypeEnum;
  input_pixel_format : PixelFormatEnum;
}.

Record DetectorConfig := { model : ModelConfig }.

(** [cameras] and [detectors] are Python dicts: keys in insertion order. *)
Record FrigateConfig := {
  cameras : list (string * CameraConfig);
  detectors : list (string * DetectorConfig);
  birdseye_restream : bool;
  semantic_search_enabled : bool;
}.

(** ** [check_shm]: the arithmetic (lines 604-623) *)

Module Shm.
Import PyFloat.

(** [round(shutil.disk_usage("/dev/shm").total / pow(2, 20), 1)] *)
Definition total_shm (disk_total : Z) : result float :=
  x ← int_truediv disk_total 1048576; Ok (round1 x).

Definition min_req_shm (cfg : FrigateConfig) : Z :=
  if birdseye_restream cfg then 40 + 10 + 8 else 40 + 10.

(** [round((width * height * 1.5 + 270480) / 1048576, 1)] *)
Definition frame_size (c : CameraConfig) : result float :=
  wh ← of_int (width (detect c) * height (detect c));
  Ok (round1 (div (add (mul wh one_and_half) (lit 270480)) (lit 1048576))).

(** The loop over [self.config.cameras.values()], accumulating into
    [cam_total_frame_size]. *)
Fixpoint cam_total_frame_size (cams : list (string * CameraConfig))
    (acc : float) : result float :=
  match cams with
  | [] => Ok acc
  | (_, camera) :: rest =>
      if enabled camera then
        size ← frame_size camera;
        cam_total_frame_size rest (add acc size)
      else cam_total_frame_size rest acc
  end.

Record plan := {
  plan_total_shm : float;
  plan_min_req_shm : Z;
  plan_available_shm : float;
  plan_cam_total : float;
  plan_frame_count : Z;
}.

Definition compute (cfg : FrigateConfig) (disk_total : Z) : result plan :=
  total ← total_shm disk_total;
  let min_req := min_req_shm cfg in
  let available := sub total (lit min_req) in
  cam_total ← cam_total_frame_size (cameras cfg) pzero;
  q ← truediv available cam_total;
  n ← to_int q;
  Ok {| plan_total_shm := total; plan_min_req_shm := min_req;
        plan_available_shm := available; plan_cam_total := cam_total;
        plan_frame_count := Z.min 50 n |}.

Definition frame_count (cfg : FrigateConfig) (disk_total : Z) : result Z :=
  p ← compute cfg disk_total; Ok (plan_frame_count p).
End Shm.


(** ** Processes, threads, queues and the events of a run *)

(** Worker processes, by the [name=] given to [mp.Process]; a capture
    worker carries the ring-buffer depth it was created with. *)
Inductive proc :=
  | log_process
  | recording_manager
  | review_segment_manager
  | embeddings_manager
  | output_processor
  | audio_capture
  | camera_processor (camera : string)
  | camera_capture (camera : string) (frame_count : Z).

Inductive thread :=
  | ptz_autotracker_thread
  | detected_frames_processor
  | storage_maintainer
  | stats_emitter
  | timeline_processor
  | event_processor
  | event_cleanup
  | record_cleanup
  | frigate_watchdog.

Inductive queue :=
  | detection_queue
  | detected_frames_queue
  | timeline_queue
  | frame_queue (camera : string).

Inductive component :=
  | external_event_processor
  | dispatcher
  | inter_process_communicator
  | inter_config_updater
  | inter_zmq_proxy.

Inductive level := DEBUG | INFO | WARNING.

Inductive message :=
  | Text (s : string)
  | ShmCalculated (frame_count : Z)
  | ShmTooSmall (recommended : Z).

Inductive event :=
  | Call (method : string)
  | ProcessStart (p : proc)
  | ProcessTerminate (p : proc)
  | ProcessJoin (p : proc)
  | ThreadStart (t : thread)
  | ThreadJoin (t : thread)
  | DetectorStart (name : string)
  | DetectorStop (name : string)
  | DatabaseBind (timeout : Z)
  | DatabaseStop
  | StopEventSet
  | FinalizeRecords
  | SaveEmbeddingsStats
  | QueueClose (q : queue)
  | ComponentStop (c : component)
  | ShmCreate (name : string) (size : positive)
  | ShmAttach (name : string)
  | ShmClose (name : string)
  | ShmUnlink (name : string)
  | Log (lvl : level) (msg : message)
  | Print (what : string).

#[global] Instance proc_eq_dec : EqDecision proc.
Proof. solve_decision. Defined.
#[global] Instance thread_eq_dec : EqDecision thread.
Proof. solve_decision. Defined.
#[global] Instance queue_eq_dec : EqDecision queue.
Proof. solve_decision. Defined.
#[global] Instance component_eq_dec : EqDecision component.
Proof. solve_decision. Defined.
#[global] Instance level_eq_dec : EqDecision level.
Proof. solve_decision. Defined.
#[global] Instance message_eq_dec : EqDecision message.
Proof. solve_decision. Defined.
#[global] Instance event_eq_dec : EqDecision event.
Proof. solve_decision. Defined.

(** ** The supervisor's state *)

(** A handle on a named segment of [/dev/shm]. *)
Record SharedMemory := { shm_name : string; shm_size : positive }.

Record CameraMetrics := {
  cm_capture_process : option proc;
  cm_process : option proc;
}.

(** What a run is given and never changes: the validated configuration,
    the [--validate-config] flag, the capacity of [/dev/shm], and which
    collaborator actions raise. *)
Record Env := {
  config : FrigateConfig;
  validate_config : bool;
  dev_shm_total : Z;
  collaborator_raises : event → option exn;
}.

(** The attributes of [FrigateApp] that the modelled methods touch,
    the named objects present in [/dev/shm] with their length in bytes
    ([SharedMemory(create=True)] makes them of positive length; an object
    left by something else may be empty), and the events so far. *)
Record FrigateApp := {
  dev_shm : gmap string N;
  detectors_started : list string;
  detection_shms : list SharedMemory;
  camera_metrics : list (string * CameraMetrics);
  shm_frame_count : option Z;
  audio_process : option proc;
  embeddings : bool;
  trace : list event;
}.

Definition set_dev_shm (f : gmap string N → gmap string N)
    (a : FrigateApp) : FrigateApp :=
  {| dev_shm := f (dev_shm a); detectors_started := detectors_started a;
     detection_shms := detection_shms a; camera_metrics := camera_metrics a;
     shm_frame_count := shm_frame_count a; audio_process := audio_process a;
     embeddings := embeddings a; trace := trace a |}.

Definition set_detectors_started (f : list string → list string)
    (a : FrigateApp) : FrigateApp :=
  {| dev_shm := dev_shm a; detectors_started := f (detectors_started a);
     detection_shms := detection_shms a; camera_metrics := camera_metrics a;
     shm_frame_count := shm_frame_count a; audio_process := audio_process a;
     embeddings := embeddings a; trace := trace a |}.

Definition set_detection_shms (f : list SharedMemory → list SharedMemory)
    (a : FrigateApp) : FrigateApp :=
  {| dev_shm := dev_shm a; detectors_started := detectors_started a;
     detection_shms := f (detection_shms a); camera_metrics := camera_metrics a;
     shm_frame_count := shm_frame_count a; audio_process := audio_process a;
     embeddings := embeddings a; trace := trace a |}.

Definition set_camera_metrics
    (f : list (string * CameraMetrics) → list (string * CameraMetrics))
    (a : FrigateApp) : FrigateApp :=
  {| dev_shm := dev_shm a; detectors_started := detectors_started a;
     detection_shms := detection_shms a; camera_metrics := f (camera_metrics a);
     shm_frame_count := shm_frame_count a; audio_process := audio_process a;
     embeddings := embeddings a; trace := trace a |}.

Definition set_shm_frame_count (v : option Z) (a : FrigateApp) : FrigateApp :=
  {| dev_shm := dev_shm a; detectors_started := detectors_started a;
     detection_shms := detection_shms a; camera_metrics := camera_metrics a;
     shm_frame_count := v; audio_process := audio_process a;
     embeddings := embeddings a; trace := trace a |}.

Definition set_audio_process (v : option proc) (a : FrigateApp) : FrigateApp :=
  {| dev_shm := dev_shm a; detectors_started := detectors_started a;
     detection_shms := detection_shms a; camera_metrics := camera_metrics a;
     shm_frame_count := shm_frame_count a; audio_process := v;
     embeddings := embeddings a; trace := trace a |}.

Definition set_embeddings (v : bool) (a : FrigateApp) : FrigateApp :=
  {| dev_shm := dev_shm a; detectors_started := detectors_started a;
     detection_shms := detection_shms a; camera_metrics := camera_metrics a;
     shm_frame_count := shm_frame_count a; audio_process := audio_process a;
     embeddings := v; trace := trace a |}.

Definition set_trace (f : list event → list event) (a : FrigateApp) : FrigateApp :=
  {| dev_shm := dev_shm a; detectors_started := detectors_started a;
     detection_shms := detection_shms a; camera_metrics := camera_metrics a;
     shm_frame_count := shm_frame_count a; audio_process := audio_process a;
     embeddings := embeddings a; trace := f (trace a) |}.

(** [FrigateApp.__init__] on a machine whose [/dev/shm] holds [segments]. *)
Definition new_app (segments : gmap string N) : FrigateApp :=
  {| dev_shm := segments; detectors_started := []; detection_shms := [];
     camera_metrics := []; shm_frame_count := None; audio_process := None;
     embeddings := false; trace := [] |}.

(** ** Methods as state transformers that may raise *)

Definition App (A : Type) : Type := FrigateApp → result A * FrigateApp.

#[global] Instance app_ret : MRet App := λ A a s, (Ok a, s).
#[global] Instance app_bind : MBind App := λ A B k m s,
  match m s with
  | (Ok a, s') => k a s'
  | (Raise e, s') => (Raise e, s')
  end.

Definition raise {A} (e : exn) : App A := λ s, (Raise e, s).

Definition lift {A} (r : result A) : App A := λ s, (r, s).

Definition gets {A} (f : FrigateApp → A) : App A := λ s, (Ok (f s), s).

Definition modify (f : FrigateApp → FrigateApp) : App unit := λ s, (Ok tt, f s).

(** Record an event that cannot fail (logging, printing). *)
Definition emit (ev : event) : App unit := modify (set_trace (λ t, t ++ [ev])).

(** [try: body except E: handler], for the exceptions selected by [catches]. *)
Definition try_except {A} (catches : exn → bool) (body : App A)
    (handler : exn → App A) : App A := λ s,
  match body s with
  | (Raise e, s') => if catches e then handler e s' else (Raise e, s')
  | r => r
  end.

Definition is_FileExistsError (e : exn) : bool :=
  match e with FileExistsError => true | _ => false end.

(** [for x in xs: body x] *)
Fixpoint for_each {X} (xs : list X) (body : X → App unit) : App unit :=
  match xs with
  | [] => mret tt
  | x :: rest => body x ;; for_each rest body
  end.

Definition events_of {A} (m : App A) (s : FrigateApp) : list event := trace (m s).2.

(** ** [multiprocessing.shared_memory.SharedMemory] *)

(** [SharedMemory(name=name, create=True, size=size)]: exclusive creation. *)
Definition shm_create (name : string) (size : Z) : App SharedMemory := λ s,
  match size with
  | Zpos sz =>
      match dev_shm s !! name with
      | Some _ => (Raise FileExistsError, s)
      | None =>
          (Ok {| shm_name := name; shm_size := sz |},
           set_trace (λ t, t ++ [ShmCreate name sz])
             (set_dev_shm (insert name (Npos sz)) s))
      end
  | _ => (Raise ValueError, s)
  end.

(** [SharedMemory(name=name)]: attach to an existing segment, whose size
    is the one found there.  The constructor maps the whole object with
    [mmap.mmap(fd, size)], which raises [ValueError] on an empty one. *)
Definition shm_attach (name : string) : App SharedMemory := λ s,
  match dev_shm s !! name with
  | Some (Npos sz) =>
      (Ok {| shm_name := name; shm_size := sz |},
       set_trace (λ t, t ++ [ShmAttach name]) s)
  | Some N0 => (Raise ValueError, s)
  | None => (Raise FileNotFoundError, s)
  end.

Definition shm_close (shm : SharedMemory) : App unit :=
  emit (ShmClose (shm_name shm)).

Definition shm_unlink (shm : SharedMemory) : App unit := λ s,
  match dev_shm s !! shm_name shm with
  | Some _ =>
      (Ok tt, set_trace (λ t, t ++ [ShmUnlink (shm_name shm)])
                (set_dev_shm (delete (shm_name shm)) s))
  | None => (Raise FileNotFoundError, s)
  end.

(** [max(xs)] on a list of ints. *)
Definition py_max (xs : list Z) : result Z :=
  match xs with
  | [] => Raise ValueError
  | x :: rest => Ok (foldl Z.max x rest)
  end.

(** [camera_metrics[name]] and the assignments to its entries. *)
Fixpoint metrics_lookup (name : string) (ms : list (string * CameraMetrics))
    : option CameraMetrics :=
  match ms with
  | [] => None
  | (k, m) :: rest => if decide (k = name) then Some m else metrics_lookup name rest
  end.

Fixpoint metrics_update (name : string) (f : CameraMetrics → CameraMetrics)
    (ms : list (string * CameraMetrics)) : list (string * CameraMetrics) :=
  match ms with
  | [] => []
  | (k, m) :: rest =>
      if decide (k = name) then (k, f m) :: rest
      else (k, m) :: metrics_update name f rest
  end.

Definition set_capture_process (p : proc) (m : CameraMetrics) : CameraMetrics :=
  {| cm_capture_process := Some p; cm_process := cm_process m |}.

Definition set_process (p : proc) (m : CameraMetrics) : CameraMetrics :=
  {| cm_capture_process := cm_capture_process m; cm_process := Some p |}.

(** ** The methods of [FrigateApp] *)

Section Methods.

Variable env : Env.

(** An action of a collaborator (process, thread, database, file system):
    it raises when the environment says so, else it happens. *)
Definition perform (ev : event) : App unit :=
  match collaborator_raises env ev with
  | Some e => raise e
  | None => emit ev
  end.

Definition info (s : string) : App unit := emit (Log INFO (Text s)).

Definition init_logger : App unit :=
  perform (ProcessStart log_process);;
  perform (Call "root_configurer").

Definition ensure_dirs : App unit := perform (Call "ensure_dirs").

(** The file is parsed by the configuration collaborator, which hands over
    [config env]; the loop creates the per-camera metrics. *)
Definition init_config : App unit :=
  perform (Call "FrigateConfig.parse_file");;
  for_each (cameras (config env)) (λ '(camera_name, _),
    modify (set_camera_metrics (λ ms,
      ms ++ [(camera_name,
              {| cm_capture_process := None; cm_process := None |})]))).

Definition set_environment_vars : App unit := perform (Call "set_environment_vars").
Definition set_log_levels : App unit := perform (Call "set_log_levels").
Definition init_queues : App unit := perform (Call "init_queues").
Definition init_database : App unit := perform (Call "init_database").
Definition init_onvif : App unit := perform (Call "init_onvif").
Definition init_go2rtc : App unit := perform (Call "init_go2rtc").

Definition init_recording_manager : App unit :=
  perform (ProcessStart recording_manager);;
  info "Recording process started".

Definition init_review_segment_manager : App unit :=
  perform (ProcessStart review_segment_manager);;
  info "Review process started".

Definition init_embeddings_manager : App unit :=
  if negb (semantic_search_enabled (config env)) then
    modify (set_embeddings false)
  else
    modify (set_embeddings true);;
    perform (ProcessStart embeddings_manager);;
    info "Embedding process started".

Definition count_enabled (cfg : FrigateConfig) : Z :=
  Z.of_nat (length (filter (λ c, enabled c.2 = true) (cameras cfg))).

Definition bind_database : App unit :=
  perform (DatabaseBind (Z.max 60 (10 * count_enabled (config env)))).

Definition check_db_data_migrations : App unit :=
  perform (Call "check_db_data_migrations").
Definition init_inter_process_communicator : App unit :=
  perform (Call "init_inter_process_communicator").
Definition init_dispatcher : App unit := perform (Call "init_dispatcher").

(** [max([det.model.height * det.model.width * 3 for ...])] *)
Definition largest_frame : result Z :=
  py_max (map (λ '(_, det),
                 model_height (model det) * model_width (model det) * 3)
              (detectors (config env))).

Definition acquire_shm_in (name : string) : App SharedMemory :=
  try_except is_FileExistsError
    (size ← lift largest_frame; shm_create name size)
    (λ _, shm_attach name).

Definition acquire_shm_out (name : string) : App SharedMemory :=
  try_except is_FileExistsError
    (shm_create ("out-" +:+ name) (20 * 6 * 4))
    (λ _, shm_attach ("out-" +:+ name)).

(** The per-camera [mp.Event()] stored in [detection_out_events] has no
    effect on the segments and is left out. *)
Definition start_detectors : App unit :=
  for_each (cameras (config env)) (λ '(name, _),
    shm_in ← acquire_shm_in name;
    shm_out ← acquire_shm_out name;
    modify (set_detection_shms (λ l, l ++ [shm_in]));;
    modify (set_detection_shms (λ l, l ++ [shm_out])));;
  for_each (detectors (config env)) (λ '(name, _),
    perform (DetectorStart name);;
    modify (set_detectors_started (λ l, l ++ [name]))).

Definition start_video_output_processor : App unit :=
  perform (ProcessStart output_processor);;
  info "Output process started".

Definition start_ptz_autotracker : App unit :=
  perform (ThreadStart ptz_autotracker_thread).

Definition init_historical_regions : App unit :=
  perform (Call "init_historical_regions").

Definition start_detected_frames_processor : App unit :=
  perform (ThreadStart detected_frames_processor).

(** [self.camera_metrics[name][...] = p] *)
Definition assign_metrics (name : string)
    (f : CameraMetrics → CameraMetrics) : App unit :=
  ms ← gets camera_metrics;
  match metrics_lookup name ms with
  | Some _ => modify (set_camera_metrics (metrics_update name f))
  | None => raise KeyError
  end.

Definition start_camera_processors : App unit :=
  for_each (cameras (config env)) (λ '(name, camera),
    if negb (enabled camera) then
      info "Camera processor not started for disabled camera"
    else
      assign_metrics name (set_process (camera_processor name));;
      perform (ProcessStart (camera_processor name));;
      info "Camera processor started").

Definition check_shm : App unit :=
  p ← lift (Shm.compute (config env) (dev_shm_total env));
  modify (set_shm_frame_count (Some (Shm.plan_frame_count p)));;
  emit (Log DEBUG (ShmCalculated (Shm.plan_frame_count p)));;
  if Shm.plan_frame_count p <? 10 then
    recommended ← lift (PyFloat.round0
       (PyFloat.add (PyFloat.lit (Shm.plan_min_req_shm p)) (Shm.plan_cam_total p)));
    emit (Log WARNING (ShmTooSmall recommended))
  else mret tt.

Definition start_camera_capture_processes : App unit :=
  for_each (cameras (config env)) (λ '(name, camera),
    if negb (enabled camera) then
      info "Capture process not started for disabled camera"
    else
      depth ← gets shm_frame_count;
      match depth with
      | None => raise AttributeError
      | Some n =>
          assign_metrics name (set_capture_process (camera_capture name n));;
          perform (ProcessStart (camera_capture name n));;
          info "Capture process started"
      end).

Definition start_audio_processors : App unit :=
  modify (set_audio_process None);;
  if decide (0 < length (filter (λ c, audio_enabled c.2 = true)
                                (cameras (config env))))%nat then
    modify (set_audio_process (Some audio_capture));;
    perform (ProcessStart audio_capture);;
    info "Audio process started"
  else mret tt.

Definition start_storage_maintainer : App unit := perform (ThreadStart storage_maintainer).
Definition init_external_event_processor : App unit :=
  perform (Call "init_external_event_processor").
Definition start_stats_emitter : App unit := perform (ThreadStart stats_emitter).
Definition init_web_server : App unit := perform (Call "init_web_server").
Definition start_timeline_processor : App unit := perform (ThreadStart timeline_processor).
Definition start_event_processor : App unit := perform (ThreadStart event_processor).
Definition start_event_cleanup : App unit := perform (ThreadStart event_cleanup).
Definition start_record_cleanup : App unit := perform (ThreadStart record_cleanup).
Definition start_watchdog : App unit := perform (ThreadStart frigate_watchdog).
Definition init_auth : App unit := perform (Call "init_auth").

Definition terminate_and_join (p : proc) : App unit :=
  perform (ProcessTerminate p);;
  perform (ProcessJoin p).

(** [while len(self.detection_shms) > 0: shm = pop(); close; unlink]:
    [pop] takes the last element. *)
Fixpoint release_shms (rev_shms : list SharedMemory) : App unit :=
  match rev_shms with
  | [] => mret tt
  | shm :: rest =>
      modify (set_detection_shms (λ l, take (length l - 1) l));;
      shm_close shm;;
      shm_unlink shm;;
      release_shms rest
  end.

Definition stop : App unit :=
  info "Stopping...";;
  perform StopEventSet;;
  perform FinalizeRecords;;
  audio ← gets audio_process;
  match audio with
  | Some p => terminate_and_join p
  | None => mret tt
  end;;
  ms ← gets camera_metrics;
  for_each ms (λ '(camera, m),
    match cm_capture_process m with
    | Some p => info "Waiting for capture process to stop";; terminate_and_join p
    | None => mret tt
    end);;
  ms ← gets camera_metrics;
  for_each ms (λ '(camera, m),
    match cm_process m with
    | Some p =>
        info "Waiting for process to stop";;
        terminate_and_join p;;
        info "Closing frame queue";;
        perform (QueueClose (frame_queue camera))
    | None => mret tt
    end);;
  ds ← gets detectors_started;
  for_each ds (λ name, perform (DetectorStop name));;
  perform (QueueClose detection_queue);;
  info "Detection queue closed";;
  perform (ThreadJoin detected_frames_processor);;
  perform (QueueClose detected_frames_queue);;
  info "Detected frames queue closed";;
  perform (ThreadJoin timeline_processor);;
  perform (ThreadJoin event_processor);;
  perform (QueueClose timeline_queue);;
  info "Timeline queue closed";;
  terminate_and_join output_processor;;
  terminate_and_join recording_manager;;
  terminate_and_join review_segment_manager;;
  perform (ComponentStop external_event_processor);;
  perform (ComponentStop dispatcher);;
  perform (ThreadJoin ptz_autotracker_thread);;
  perform (ThreadJoin event_cleanup);;
  perform (ThreadJoin record_cleanup);;
  perform (ThreadJoin stats_emitter);;
  perform (ThreadJoin frigate_watchdog);;
  perform DatabaseStop;;
  emb ← gets embeddings;
  (if emb : bool then perform SaveEmbeddingsStats else mret tt);;
  perform (ComponentStop inter_process_communicator);;
  perform (ComponentStop inter_config_updater);;
  perform (ComponentStop inter_zmq_proxy);;
  shms ← gets detection_shms;
  release_shms (reverse shms);;
  terminate_and_join log_process;;
  raise (OsExit 0).

(** The body of the [try] block of [start], after [init_logger]. *)
Definition start_supervisor : App unit :=
  ensure_dirs;;
  try_except is_Exception init_config (λ _,
    emit (Print "Your config file is not valid!");;
    perform (ProcessTerminate log_process);;
    raise (SystemExit 1));;
  (if validate_config env then
     emit (Print "Your config file is valid.");;
     perform (ProcessTerminate log_process);;
     raise (SystemExit 0)
   else mret tt);;
  set_environment_vars;;
  set_log_levels;;
  init_queues;;
  init_database;;
  init_onvif;;
  init_recording_manager;;
  init_review_segment_manager;;
  init_embeddings_manager;;
  init_go2rtc;;
  bind_database;;
  check_db_data_migrations;;
  init_inter_process_communicator;;
  init_dispatcher.

(** The calls of [start] between the [try] block and [check_shm]. *)
Definition start_pipeline : App unit :=
  start_detectors;;
  start_video_output_processor;;
  start_ptz_autotracker;;
  init_historical_regions;;
  start_detected_frames_processor;;
  start_camera_processors.

(** The calls of [start] after [start_camera_capture_processes]. *)
Definition start_services : App unit :=
  start_audio_processors;;
  start_storage_maintainer;;
  init_external_event_processor;;
  start_stats_emitter;;
  init_web_server;;
  start_timeline_processor;;
  start_event_processor;;
  start_event_cleanup;;
  start_record_cleanup;;
  start_watchdog;;
  init_auth.

Definition start : App unit :=
  init_logger;;
  info "Starting Frigate";;
  try_except is_Exception start_supervisor (λ _,
    emit (Print "exception");;
    perform (ProcessTerminate log_process);;
    raise (SystemExit 1));;
  start_pipeline;;
  check_shm;;
  start_camera_capture_processes;;
  start_services;;
  perform (Call "flask_app.run");;
  info "Flask has exited...";;
  stop.

End Methods.

(** ** [ONNXDetector.detect_raw] *)

Module Onnx.

Section Detector.

(** Arrays are opaque except for the prediction rows.  [R] is the dtype of
    the session's output, [F] is [np.float32], the dtype of the returned
    array; [blobFromImage] stands for
    [cv2.dnn.blobFromImage(tensor_input[0], 1.0, (shape[3], shape[2]), None,
    swapRB=...).astype(np.uint8)]. *)
Variable tensor : Type.
Variable shape : Type.
Variable R : Type.
Variable F : Type.
Variable r_negative : R → bool.
Variable r_div : R → Z → R.
Variable to_f32 : R → F.
Variable f_zero : F.
Variable blobFromImage : tensor → shape → bool → result tensor.

(** One row of the raw output:
    [(_, x_min, y_min, x_max, y_max, confidence, class_id)]. *)
Record prediction := {
  batch_index : R;
  x_min : R;
  y_min : R;
  x_max : R;
  y_max : R;
  confidence : R;
  class_id : R;
}.

(** [self.model]: an [onnxruntime.InferenceSession]. *)
Record session := {
  input_shape : shape;
  run : tensor → result (list (list prediction));
}.

Record detector := {
  onnx_model : session;
  h : Z;
  w : Z;
  onnx_model_type : ModelTypeEnum;
  onnx_model_px : PixelFormatEnum;
}.

Definition is_yolonas (t : ModelTypeEnum) : bool :=
  match t with yolonas => true | other_model _ => false end.

Definition is_bgr (px : PixelFormatEnum) : bool :=
  match px with bgr => true | _ => false end.

Definition model_type_name (t : ModelTypeEnum) : string :=
  match t with
  | yolonas => "yolonas"
  | other_model label => label
  end.

Definition unsupported (t : ModelTypeEnum) : exn :=
  PyException (model_type_name t +:+
    " is currently not supported for rocm. See the docs for more info on supported models.").

(** [np.zeros((20, 6), np.float32)] *)
Definition zero_row : list F := replicate 6 f_zero.
Definition zeros : list (list F) := replicate 20 zero_row.

(** The row stored at [detections[i]]. *)
Definition detection_row (d : detector) (p : prediction) : list F :=
  [ to_f32 (class_id p);
    to_f32 (confidence p);
    to_f32 (r_div (y_min p) (h d));
    to_f32 (r_div (x_min p) (w d));
    to_f32 (r_div (y_max p) (h d));
    to_f32 (r_div (x_max p) (w d)) ].

(** [for i, prediction in enumerate(predictions): ...] *)
Fixpoint fill (d : detector) (i : nat) (predictions : list prediction)
    (detections : list (list F)) : list (list F) :=
  match predictions with
  | [] => detections
  | p :: rest =>
      if decide (i = 20%nat) then detections
      else if r_negative (class_id p) then detections
      else fill d (S i) rest (<[i := detection_row d p]> detections)
  end.

Definition detect_raw (d : detector) (tensor_input : tensor)
    : result (list (list F)) :=
  let model_input_shape := input_shape (onnx_model d) in
  tensor_input ←
    (if is_yolonas (onnx_model_type d) then
       blobFromImage tensor_input model_input_shape (is_bgr (onnx_model_px d))
     else Ok tensor_input);
  tensor_output ← run (onnx_model d) tensor_input;
  if is_yolonas (onnx_model_type d) then
    match tensor_output with
    | predictions :: _ => Ok (fill d 0 predictions zeros)
    | [] => Raise IndexError
    end
  else Raise (unsupported (onnx_model_type d)).

(** The leading rows whose class id is not negative. *)
Fixpoint valid_prefix (predictions : list prediction) : list prediction :=
  match predictions with
  | [] => []
  | p :: rest => if r_negative (class_id p) then [] else p :: valid_prefix rest
  end.

(** The rows that the loop writes: at most 20 of the valid prefix. *)
Definition populated (d : detector) (predictions : list prediction)
    : list (list F) :=
  map (detection_row d) (take 20 (valid_prefix predictions)).

End Detector.

Arguments x_min {R} p.
Arguments y_min {R} p.
Arguments x_max {R} p.
Arguments y_max {R} p.
Arguments confidence {R} p.
Arguments class_id {R} p.
Arguments input_shape {tensor shape R} s.
Arguments run {tensor shape R} s t.
Arguments onnx_model {tensor shape R} d.
Arguments h {tensor shape R} d.
Arguments w {tensor shape R} d.
Arguments onnx_model_type {tensor shape R} d.
Arguments onnx_model_px {tensor shape R} d.
Arguments zero_row {F} f_zero.
Arguments zeros {F} f_zero.
Arguments detection_row {tensor shape R F} r_div to_f32 d p.
Arguments fill {tensor shape R F} r_negative r_div to_f32 d i predictions detections.
Arguments detect_raw {tensor shape R F} r_negative r_div to_f32 f_zero blobFromImage d tensor_input.
Arguments valid_prefix {R} r_negative predictions.
Arguments populated {tensor shape R F} r_negative r_div to_f32 d predictions.

End Onnx.

(** ** The resource planner as the specification words it

    [frames_per_camera = min(50, floor(available / total_frame_size))],
    [available] being the capacity in MB minus the reserve and
    [total_frame_size] the sum of the frame sizes of the enabled cameras. *)

Module PlannerSpec.
Import PyFloat.

Definition reserve (birdseye_restream_enabled : bool) : Z :=
  40 + 10 + (if birdseye_restream_enabled then 8 else 0).

Definition available (total_mb : float) (birdseye_restream_enabled : bool) : float :=
  sub total_mb (lit (reserve birdseye_restream_enabled)).

Definition frame_size_mb (c : CameraConfig) : result float :=
  pixels ← of_int (width (detect c) * height (detect c));
  Ok (round1 (div (add (mul pixels one_and_half) (lit 270480)) (lit 1048576))).

Fixpoint sizes (cams : list CameraConfig) : result (list float) :=
  match cams with
  | [] => Ok []
  | c :: rest => x ← frame_size_mb c; xs ← sizes rest; Ok (x :: xs)
  end.

Definition enabled_cameras (cfg : FrigateConfig) : list CameraConfig :=
  filter (λ c, enabled c = true) (map snd (cameras cfg)).

Definition total_frame_size (cfg : FrigateConfig) : result float :=
  xs ← sizes (enabled_cameras cfg); Ok (foldl add pzero xs).

(** The planner with the rounding of the quotient left open. *)
Definition plan_with (to_integer : float → result Z)
    (total_mb : float) (cfg : FrigateConfig) : result Z :=
  total ← total_frame_size cfg;
  q ← truediv (available total_mb (birdseye_restream cfg)) total;
  n ← to_integer q;
  Ok (Z.min 50 n).

Definition plan : float → FrigateConfig → result Z := plan_with floor.

End PlannerSpec.

(** ** Predicates used in the statements *)

Module FloatFacts.
Import PyFloat.

(** "Not negative, if a number at all": zeros of either sign, positive finite
    numbers, plus infinity, NaN. *)
Definition nonneg (x : float) : Prop :=
  match x with
  | S754_zero _ | S754_nan => True
  | S754_finite s _ _ | S754_infinity s => s = false
  end.

(** A zero, or a finite number of magnitude below [2 ^ k]. *)
Definition below (k : Z) (x : float) : Prop :=
  match x with
  | S754_zero _ => True
  | S754_finite _ m e => Zdigits2 (Zpos m) + e ≤ k
  | _ => False
  end.

(** A finite number in the form that rounding gives: its exponent is the
    one that the format assigns to its magnitude. *)
Definition canonical (x : float) : Prop :=
  match x with
  | S754_finite _ m e => fexp prec emax (Zdigits2 (Zpos m) + e) = e
  | _ => True
  end.

(** What the sum of the frame sizes may be while [check_shm] adds them up:
    not negative, below [2 ^ 109], and canonical once it is [2 ^ 107] or
    more. *)
Definition partial_sum (acc : float) : Prop :=
  nonneg acc ∧ below 109 acc ∧ (below 107 acc ∨ canonical acc).

End FloatFacts.

(** An enabled camera whose resolution is not a negative number of pixels. *)
Definition sane_resolution (nc : string * CameraConfig) : Prop :=
  enabled nc.2 = true → 0 ≤ width (detect nc.2) * height (detect nc.2).

(** An enabled camera whose number of pixels is in the range of a 64-bit
    unsigned integer. *)
Definition bounded_resolution (nc : string * CameraConfig) : Prop :=
  enabled nc.2 = true →
  0 ≤ width (detect nc.2) * height (detect nc.2) < 2 ^ 64.

(** ** Concrete inputs *)

Definition camera (w h : Z) (audio : bool) : CameraConfig :=
  {| enabled := true; detect := {| width := w; height := h |};
     audio_enabled := audio |}.

Definition hd720 : CameraConfig := camera 1280 720 false.

Definition one_camera : FrigateConfig :=
  {| cameras := [("front"%string, hd720)]; detectors := [];
     birdseye_restream := false; semantic_search_enabled := false |}.

Definition three_cameras : FrigateConfig :=
  {| cameras := [("a"%string, camera 1280 960 false);
                 ("b"%string, camera 1280 960 false);
                 ("c"%string, camera 1280 960 false)];
     detectors := []; birdseye_restream := false;
     semantic_search_enabled := false |}.

Definition capture_events (n : Z) (cams : list (string * CameraConfig)) : list event :=
  flat_map (λ '(name, c),
    if enabled c
    then [ProcessStart (camera_capture name n);
          Log INFO (Text "Capture process started")]
    else [Log INFO (Text "Capture process not started for disabled camera")]) cams.

Definition never_raises (env : Env) : Prop :=
  ∀ ev, collaborator_raises env ev = None.

Definition has_metrics (app : FrigateApp) (nc : string * CameraConfig) : Prop :=
  is_Some (metrics_lookup nc.1 (camera_metrics app)).

Definition wide_camera : FrigateConfig :=
  {| cameras := [("front"%string, camera (2 ^ 1023 + 2 ^ 1022) 1 false)];
     detectors := []; birdseye_restream := false;
     semantic_search_enabled := false |}.

Definition quiet_env (cfg : FrigateConfig) (disk_total : Z) : Env :=
  {| config := cfg; validate_config := false; dev_shm_total := disk_total;
     collaborator_raises := λ _, None |}.


(** The names of the segments of the cameras, in acquisition order. *)
Definition segment_names (cams : list (string * CameraConfig)) : list string :=
  flat_map (λ nc, [nc.1; "out-" +:+ nc.1]) cams.

(** The handles that fresh creation gives. *)
Definition fresh_segments (size : positive) (cams : list (string * CameraConfig))
    : list SharedMemory :=
  flat_map (λ nc, [ {| shm_name := nc.1; shm_size := size |};
                    {| shm_name := "out-" +:+ nc.1; shm_size := 480 |} ]) cams.


(** The names [name] and [out-name] are segment names of no other camera. *)
Definition unshared (name : string) (cams : list (string * CameraConfig)) : Prop :=
  ∀ nc, nc ∈ cams → "out-" +:+ nc.1 ≠ name ∧ nc.1 ≠ "out-" +:+ name.

(** The two segments of camera [name] exist with [size] and 480 bytes, and
    handles of these sizes are registered. *)
Definition allocated (name : string) (size : positive) (app : FrigateApp) : Prop :=
  dev_shm app !! name = Some (Npos size) ∧
  dev_shm app !! ("out-" +:+ name) = Some 480%N ∧
  {| shm_name := name; shm_size := size |} ∈ detection_shms app ∧
  {| shm_name := "out-" +:+ name; shm_size := 480 |} ∈ detection_shms app.

Definition frame_sizes (cfg : FrigateConfig) : list Z :=
  map (λ nd, model_height (model nd.2) * model_width (model nd.2) * 3) (detectors cfg).

(** The two loops of [start_detectors]. *)
Definition acquire_all (env : Env) (cams : list (string * CameraConfig))
    : App unit :=
  for_each cams (λ '(name, _),
    shm_in ← acquire_shm_in env name;
    shm_out ← acquire_shm_out name;
    modify (set_detection_shms (λ l, l ++ [shm_in]));;
    modify (set_detection_shms (λ l, l ++ [shm_out]))).

Definition launch_all (env : Env) (dets : list (string * DetectorConfig))
    : App unit :=
  for_each dets (λ '(name, _),
    perform env (DetectorStart name);;
    modify (set_detectors_started (λ l, l ++ [name]))).


(** ** Traces *)


(** Every event that a computation adds to the trace satisfies [P]. *)
Definition emits {A} (P : event → Prop) (m : App A) : Prop :=
  ∀ s, ∃ evs, trace (m s).2 = trace s ++ evs ∧ Forall P evs.

(** A specification of a computation by the traces before and after it:
    [Post] when it returns, [Err] when it raises. *)
Definition triple {A} (Pre : list event → Prop) (m : App A)
    (Post Err : list event → Prop) : Prop :=
  ∀ s, Pre (trace s) →
    match (m s).1 with
    | Ok _ => Post (trace (m s).2)
    | Raise _ => Err (trace (m s).2)
    end.

Definition is_bind (ev : event) : bool :=
  match ev with DatabaseBind _ => true | _ => false end.

(** Starting one of the workers that open the database on their own. *)
Definition starts_store_worker (ev : event) : bool :=
  match ev with
  | ProcessStart recording_manager
  | ProcessStart review_segment_manager
  | ProcessStart embeddings_manager => true
  | _ => false
  end.

(** What may happen once the database is bound. *)
Definition settled (ev : event) : Prop :=
  is_bind ev = false ∧ starts_store_worker ev = false.

(** The store workers that a configuration asks for. *)
Definition required_workers (cfg : FrigateConfig) : list proc :=
  if semantic_search_enabled cfg
  then [recording_manager; review_segment_manager; embeddings_manager]
  else [recording_manager; review_segment_manager].

(** Before the binding: no binding yet, and the workers [ws] are started. *)
Definition unbound (ws : list proc) (t : list event) : Prop :=
  Forall (λ ev, is_bind ev = false) t ∧ Forall (λ p, ProcessStart p ∈ t) ws.

(** After the binding: it happened once, every required worker was started
    before it, and no store worker was started since. *)
Definition bound (cfg : FrigateConfig) (t : list event) : Prop :=
  ∃ pre timeout post,
    t = pre ++ DatabaseBind timeout :: post ∧
    unbound (required_workers cfg) pre ∧
    Forall settled post.

(** The states of the trace that a run of [start] may end in. *)
Definition ordered (cfg : FrigateConfig) (t : list event) : Prop :=
  unbound [] t ∨ bound cfg t.

(** ** More concrete inputs *)


(** [np.float32] arithmetic, for concrete runs of [detect_raw]. *)
Module F32.
Definition of_scaled (m e : Z) : spec_float := binary_normalize 24 128 m e false.
Definition of_int (n : Z) : spec_float := of_scaled n 0.
Definition negative (x : spec_float) : bool := SFltb x (S754_zero false).
Definition div_int (x : spec_float) (n : Z) : spec_float := SFdiv 24 128 x (of_int n).
Definition zero : spec_float := S754_zero false.
End F32.

Definition yolonas_model : ModelConfig :=
  {| model_path := "/config/model_cache/yolo_nas_s.onnx"; model_height := 320;
     model_width := 320; model_type := yolonas; input_pixel_format := bgr |}.

(** One camera, one detector, semantic search switched on, 1 GiB of
    shared memory, nothing fails. *)
Definition semantic_config : FrigateConfig :=
  {| cameras := [("front"%string, hd720)];
     detectors := [("onnx"%string, {| model := yolonas_model |})];
     birdseye_restream := false; semantic_search_enabled := true |}.

Definition semantic_env : Env := quiet_env semantic_config (1024 * 1048576).

Definition two_camera_config : FrigateConfig :=
  {| cameras := [("front"%string, hd720); ("back"%string, hd720)];
     detectors := [("onnx"%string, {| model := yolonas_model |})];
     birdseye_restream := false; semantic_search_enabled := false |}.

Definition no_camera_config : FrigateConfig :=
  {| cameras := [("front"%string,
                  {| enabled := false; detect := {| width := 1280; height := 720 |};
                     audio_enabled := false |})];
     detectors := []; birdseye_restream := false;
     semantic_search_enabled := false |}.

(** Raw output rows of a session, as float32. *)
Definition raw_row (x0 y0 x1 y1 conf cls : Z) : Onnx.prediction spec_float :=
  Onnx.Build_prediction spec_float (F32.of_int 0) (F32.of_int x0) (F32.of_int y0)
    (F32.of_int x1) (F32.of_int y1) (F32.of_scaled conf (-7)) (F32.of_int cls).

Definition raw_output : list (Onnx.prediction spec_float) :=
  [ raw_row 80 160 240 320 115 0;
    raw_row 0 0 320 320 96 2;
    raw_row 160 80 320 240 64 16;
    raw_row 0 0 0 0 0 (-1);
    raw_row 1 2 3 4 5 6 ].

Definition session_returning (out : result (list (list (Onnx.prediction spec_float))))
    : Onnx.session unit unit spec_float :=
  Onnx.Build_session unit unit spec_float tt (λ _, out).

Definition detector_of (t : ModelTypeEnum)
    (out : result (list (list (Onnx.prediction spec_float))))
    : Onnx.detector unit unit spec_float :=
  Onnx.Build_detector unit unit spec_float (session_returning out) 320 320 t bgr.

Definition f32_detect_raw :=
  Onnx.detect_raw (tensor:=unit) (shape:=unit) F32.negative F32.div_int id F32.zero
    (λ t _ _, Ok t).

(** [/dev/shm] with segments left behind by an earlier run. *)
Definition stale_shm : gmap string N :=
  {[ "front"%string := 150528%N; "out-front"%string := 480%N ]}.


Definition two_camera_env : Env := quiet_env two_camera_config (1024 * 1048576).

Definition warned_env : Env := quiet_env three_cameras (100 * 1048576).

(** The state in which [check_shm] finds the application: the metrics of
    every camera exist. *)
Definition warned_app : FrigateApp := (init_config warned_env (new_app ∅)).2.

(** A whole run, from [start] to the end of [stop]. *)
Definition semantic_run : result unit * FrigateApp :=
  start semantic_env (new_app ∅).

(** ** Further predicates and inputs *)

(** The resolutions of the enabled cameras, in configuration order. *)
Definition enabled_resolutions (cfg : FrigateConfig) : list DetectConfig :=
  map (λ nc, detect nc.2) (filter (λ nc, enabled nc.2 = true) (cameras cfg)).

(** "Not positive, if a number at all". *)
Definition nonpos (x : spec_float) : Prop :=
  match x with
  | S754_zero _ | S754_nan => True
  | S754_finite s _ _ | S754_infinity s => s = true
  end.

Definition tiny_shm_config : FrigateConfig :=
  {| cameras := [("front"%string, hd720)]; detectors := [];
     birdseye_restream := true; semantic_search_enabled := false |}.

Definition renamed_cameras : FrigateConfig :=
  {| cameras := [("porch"%string, camera 1280 960 true);
                 ("off"%string,
                  {| enabled := false; detect := {| width := 3840; height := 2160 |};
                     audio_enabled := true |});
                 ("yard"%string, camera 1280 960 false);
                 ("gate"%string, camera 1280 960 true)];
     detectors := [("onnx"%string, {| model := yolonas_model |})];
     birdseye_restream := false; semantic_search_enabled := true |}.


(** ** [ONNXDetector.__init__] *)

Module OnnxInit.

(** The values of a provider-options dict. *)
Inductive option_value :=
  | OptBool (b : bool)
  | OptStr (s : string).

Definition provider_options := list (string * option_value).

Definition tensorrt_options : provider_options :=
  [ ("trt_timing_cache_enable"%string, OptBool true);
    ("trt_timing_cache_path"%string, OptStr "/config/model_cache/tensorrt/ort");
    ("trt_engine_cache_enable"%string, OptBool true);
    ("trt_engine_cache_path"%string,
       OptStr "/config/model_cache/tensorrt/ort/trt-engines") ].

Definition openvino_options : provider_options :=
  [ ("cache_dir"%string, OptStr "/config/model_cache/openvino/ort") ].

(** The body of [for provider in providers]. *)
Definition options_for (provider : string) : provider_options :=
  if decide (provider = "TensorrtExecutionProvider"%string) then tensorrt_options
  else if decide (provider = "OpenVINOExecutionProvider"%string) then openvino_options
  else [].

(** The loop, appending to [options]. *)
Fixpoint append_options (providers : list string)
    (options : list provider_options) : list provider_options :=
  match providers with
  | [] => options
  | provider :: rest => append_options rest (options ++ [options_for provider])
  end.

Section Init.

Variable tensor : Type.
Variable shape : Type.
Variable R : Type.

(** The [onnxruntime] module, when it can be imported. *)
Record runtime := {
  get_available_providers : list string;
  InferenceSession :
    string → list string → list provider_options →
    result (Onnx.session tensor shape R);
}.

Inductive log_line :=
  | LogInfo (msg : string)
  | LogError (msg : string).

(** [ONNXDetector(detector_config)]: the log lines written and the
    detector, or the exception that leaves the constructor. *)
Definition init (ort : option runtime) (detector_config : DetectorConfig)
    : list log_line * result (Onnx.detector tensor shape R) :=
  match ort with
  | None =>
      ([LogError "ONNX: module loading failed, need 'pip install onnxruntime'?!?"],
       Raise (ExternalError "ModuleNotFoundError"))
  | Some ort =>
      let path := model_path (model detector_config) in
      let providers := get_available_providers ort in
      let options := append_options providers [] in
      let loading := [LogInfo "ONNX: loaded onnxruntime module";
                      LogInfo ("ONNX: loading " +:+ path)] in
      match InferenceSession ort path providers options with
      | Raise e => (loading, Raise e)
      | Ok session =>
          (loading ++ [LogInfo ("ONNX: " +:+ path +:+ " loaded")],
           Ok (Onnx.Build_detector tensor shape R session
                 (model_height (model detector_config))
                 (model_width (model detector_config))
                 (model_type (model detector_config))
                 (input_pixel_format (model detector_config))))
      end
  end.

End Init.

Arguments get_available_providers {tensor shape R} r.
Arguments InferenceSession {tensor shape R} r path providers options.
Arguments init {tensor shape R} ort detector_config.

End OnnxInit.

(** A runtime with three providers whose sessions return [raw_output]. *)
Definition three_provider_runtime : OnnxInit.runtime unit unit spec_float :=
  OnnxInit.Build_runtime unit unit spec_float
    ["TensorrtExecutionProvider"; "OpenVINOExecutionProvider";
     "CPUExecutionProvider"]%string
    (λ _ _ _, Ok (session_returning (Ok [raw_output]))).

Definition many_rows : list (Onnx.prediction spec_float) :=
  replicate 25 (raw_row 0 0 320 320 96 2).


(** The handle that attaching to [name] gives in the namespace [m]. *)
Definition attached (m : gmap string N) (name : string) : list SharedMemory :=
  match m !! name with
  | Some (Npos size) => [ {| shm_name := name; shm_size := size |} ]
  | _ => []
  end.

(** A handle agrees with [/dev/shm]: its segment exists, with its size. *)
Definition consistent (m : gmap string N) (shm : SharedMemory) : Prop :=
  m !! shm_name shm = Some (Npos (shm_size shm)).

(** Creating or attaching to a segment of one of the cameras. *)
Definition acquires (cfg : FrigateConfig) (ev : event) : Prop :=
  match ev with
  | ShmCreate name _ | ShmAttach name => name ∈ segment_names (cameras cfg)
  | _ => False
  end.

(** Starting one of the configured detectors. *)
Definition launches (cfg : FrigateConfig) (ev : event) : Prop :=
  match ev with
  | DetectorStart name => name ∈ map fst (detectors cfg)
  | _ => False
  end.

Definition no_detector_config : FrigateConfig :=
  {| cameras := [("front"%string, hd720)]; detectors := [];
     birdseye_restream := false; semantic_search_enabled := false |}.

(** Cameras [front] and [out-front]: the output segment of the first has
    the name of the input segment of the second. *)
Definition clashing_config : FrigateConfig :=
  {| cameras := [("front"%string, hd720); ("out-front"%string, hd720)];
     detectors := [("onnx"%string, {| model := yolonas_model |})];
     birdseye_restream := false; semantic_search_enabled := false |}.


(** The loop at the end of [stop]:
    [while len(self.detection_shms) > 0: ...]. *)
Definition release_all : App unit :=
  shms ← gets detection_shms;
  release_shms (reverse shms).

(** What releasing one segment adds to the trace. *)
Definition release_events (shm : SharedMemory) : list event :=
  [ShmClose (shm_name shm); ShmUnlink (shm_name shm)].

(** No camera is named like the output segment of a camera. *)
Definition no_name_clash (cfg : FrigateConfig) : Prop :=
  NoDup (map fst (cameras cfg)) ∧
  Forall (λ n, "out-" +:+ n ∉ map fst (cameras cfg)) (map fst (cameras cfg)).


(** * Proofs *)

(** ** Signs of float operations *)

Module FloatLemmas.
Import PyFloat FloatFacts.

Lemma binary_round_aux_sign s m e l :
  match binary_round_aux prec emax s m e l with
  | S754_zero s' | S754_infinity s' | S754_finite s' _ _ => s' = s
  | S754_nan => True
  end.
Proof.
  unfold binary_round_aux.
  destruct (shr_fexp prec emax m e l) as [mrs e'].
  destruct (shr_fexp prec emax _ e' loc_Exact) as [mrs' e''].
  destruct (shr_m mrs'); [done | | done].
  by destruct (e'' <=? emax - prec)%Z.
Qed.

Lemma binary_round_aux_nonneg m e l : nonneg (binary_round_aux prec emax false m e l).
Proof.
  pose proof (binary_round_aux_sign false m e l) as H.
  by destruct (binary_round_aux prec emax false m e l).
Qed.

Lemma binary_round_nonneg m e : nonneg (binary_round prec emax false m e).
Proof.
  unfold binary_round. destruct (shl_align _ _ _) as [mz ez].
  apply binary_round_aux_nonneg.
Qed.

Lemma leb_pzero_nonneg x : leb pzero x = true → nonneg x.
Proof. destruct x as [s|s| |s m e]; try destruct s; done. Qed.

Lemma add_nonneg x y : nonneg x → nonneg y → nonneg (add x y).
Proof.
  unfold add.
  destruct x as [sx|sx| |sx mx ex], y as [sy|sy| |sy my ey]; simpl;
    intros Hx Hy; subst; try done.
  - by destruct sx, sy.
  - apply binary_round_nonneg.
Qed.

Lemma mul_nonneg x y : nonneg x → nonneg y → nonneg (mul x y).
Proof.
  unfold mul.
  destruct x as [sx|sx| |sx mx ex], y as [sy|sy| |sy my ey]; simpl;
    intros Hx Hy; subst; try done.
  apply binary_round_aux_nonneg.
Qed.

Lemma div_nonneg x y :
  nonneg x → nonneg y → is_zero y = false → nonneg (div x y).
Proof.
  unfold div.
  destruct x as [sx|sx| |sx mx ex], y as [sy|sy| |sy my ey]; simpl;
    intros Hx Hy Hz; subst; try done.
  unfold SFdiv.
  destruct (SFdiv_core_binary _ _ _ _ _ _) as [[mz ez] lz].
  apply binary_round_aux_nonneg.
Qed.

Lemma round1_nonneg x : nonneg x → nonneg (round1 x).
Proof.
  destruct x as [sx|sx| |sx mx ex]; simpl; try done.
  intros ->. destruct (magnitude mx ex) as [n d].
  destruct (div_half_even _ _); try done.
  by apply (div_nonneg (S754_finite false _ 0) (S754_finite false 10 0)).
Qed.

Lemma of_int_nonneg n x : 0 ≤ n → of_int n = Ok x → nonneg x.
Proof.
  intros Hn. unfold of_int, nearest, of_scaled, binary_normalize.
  destruct n as [|p|p]; [| |lia].
  - by intros [= <-].
  - pose proof (binary_round_nonneg p 0) as H.
    destruct (binary_round prec emax false p 0); by intros [= <-].
Qed.

Lemma magnitude_pos m e : 0 ≤ (magnitude m e).1 ∧ 0 < (magnitude m e).2.
Proof.
  unfold magnitude. destruct e as [|k|k]; cbn [fst snd]; [lia| |].
  - split; [|lia]. apply Z.mul_nonneg_nonneg; [lia|]. apply Z.pow_nonneg. lia.
  - split; [lia|]. apply Z.pow_pos_nonneg; lia.
Qed.

(** On a number that is not negative, truncation is the floor, and it is
    not negative either. *)
Lemma to_int_nonneg x n :
  nonneg x → to_int x = Ok n → 0 ≤ n ∧ floor x = Ok n.
Proof.
  destruct x as [s|s| |s m e]; simpl; try done.
  - by intros _ [= <-].
  - intros ->. pose proof (magnitude_pos m e) as [Hn Hd].
    destruct (magnitude m e) as [a d]; simpl in *.
    intros [= <-]. split; [|done]. apply Z.div_pos; lia.
Qed.

End FloatLemmas.

(** ** Magnitudes of float operations *)

Module FloatRange.
Import PyFloat FloatFacts.

Lemma digits2_size p : digits2_pos p = Pos.size p.
Proof. induction p as [p IH|p IH|]; simpl; by rewrite ?IH. Qed.

Lemma digits_gt m : 0 ≤ m → m < 2 ^ Zdigits2 m.
Proof.
  destruct m as [|p|p]; [done| |lia]. intros _. simpl.
  rewrite digits2_size. pose proof (Pos.size_gt p) as H.
  rewrite <- Pos2Z.inj_pow. lia.
Qed.

Lemma digits_le p : 2 ^ (Zdigits2 (Zpos p) - 1) ≤ Zpos p.
Proof.
  simpl. rewrite digits2_size. pose proof (Pos.size_le p) as H.
  assert (2 ^ Zpos (Pos.size p) ≤ 2 * Zpos p) as H'.
  { rewrite <- Pos2Z.inj_pow. lia. }
  replace (Zpos (Pos.size p)) with (Z.succ (Zpos (Pos.size p) - 1)) in H' by lia.
  rewrite Z.pow_succ_r in H' by lia. lia.
Qed.

Lemma digits_nonneg m : 0 ≤ Zdigits2 m.
Proof. by destruct m. Qed.

Lemma digits_bound m d : 0 ≤ m → 0 ≤ d → m < 2 ^ d → Zdigits2 m ≤ d.
Proof.
  intros Hm Hd Hlt. destruct m as [|p|p]; [done| |lia].
  pose proof (digits_le p) as Hle.
  destruct (Z.le_gt_cases (Zdigits2 (Zpos p)) d) as [|Hgt]; [done|].
  assert (2 ^ d ≤ 2 ^ (Zdigits2 (Zpos p) - 1)); [|lia].
  apply Z.pow_le_mono_r; lia.
Qed.

Lemma div_pow2_lt m d a :
  0 ≤ m → m < 2 ^ d → 0 ≤ a → 0 ≤ d →
  0 ≤ m / 2 ^ a ∧ m / 2 ^ a < 2 ^ Z.max (d - a) 0.
Proof.
  intros Hm Hlt Ha Hd.
  assert (0 < 2 ^ a) by (apply Z.pow_pos_nonneg; lia).
  split; [apply Z.div_pos; lia|].
  apply Z.div_lt_upper_bound; [done|].
  destruct (Z.le_gt_cases a d).
  - rewrite Z.max_l by lia. rewrite <- Z.pow_add_r by lia.
    by replace (a + (d - a)) with d by lia.
  - rewrite Z.max_r by lia. rewrite Z.mul_1_r.
    assert (2 ^ d ≤ 2 ^ a); [|lia]. apply Z.pow_le_mono_r; lia.
Qed.

Lemma iter_pos_iter {A} (f : A → A) p : ∀ x, SpecFloat.iter_pos f p x = Pos.iter f x p.
Proof.
  induction p as [p IH|p IH|]; intros x; simpl; [|by rewrite !IH|done].
  by rewrite !IH, !Pos.iter_swap.
Qed.

Lemma shr_1_m mrs : 0 ≤ shr_m mrs → shr_m (shr_1 mrs) = shr_m mrs / 2.
Proof.
  destruct mrs as [m r s]. simpl. intros Hm.
  rewrite <- Z.div2_div. by destruct m as [|[p|p|]|p].
Qed.

Lemma shr_m_iter p : ∀ mrs,
  0 ≤ shr_m mrs → shr_m (Pos.iter shr_1 mrs p) = shr_m mrs / 2 ^ Zpos p.
Proof.
  induction p as [|p IH] using Pos.peano_ind; intros mrs Hm.
  - simpl. by rewrite shr_1_m.
  - rewrite Pos.iter_succ, shr_1_m.
    + rewrite IH by done. rewrite Pos2Z.inj_succ, Z.pow_succ_r by lia.
      rewrite Z.div_div by (try apply Z.pow_pos_nonneg; lia).
      f_equal. lia.
    + rewrite IH by done. apply Z.div_pos; [done|]. apply Z.pow_pos_nonneg; lia.
Qed.

Lemma shr_spec mrs e n :
  0 ≤ shr_m mrs →
  shr_m (shr mrs e n).1 = shr_m mrs / 2 ^ Z.max n 0 ∧
  (shr mrs e n).2 = e + Z.max n 0.
Proof.
  intros Hm. destruct n as [|p|p]; simpl.
  - rewrite Z.div_1_r. split; [done|lia].
  - rewrite iter_pos_iter, shr_m_iter by done. done.
  - rewrite Z.div_1_r. split; [done|lia].
Qed.

Lemma shr_record_of_loc_m m l : shr_m (shr_record_of_loc m l) = m.
Proof. by destruct l as [|[]]. Qed.

Lemma round_nearest_even_bounds m l :
  m ≤ round_nearest_even m l ≤ m + 1.
Proof.
  unfold round_nearest_even. destruct l as [|[]]; [lia| |lia|lia].
  destruct (Z.even m); lia.
Qed.

(** Rounding a mantissa of magnitude below [2 ^ k] neither overflows nor
    gives more than [2 ^ k]. *)
Lemma round_aux_below s mx ex lx k :
  0 ≤ mx → 0 ≤ k →
  Zdigits2 mx + ex ≤ k →
  ex ≤ emax - prec →
  k + 1 ≤ emax →
  below (k + 1) (binary_round_aux prec emax s mx ex lx).
Proof.
  intros Hmx Hk Hd Hex Hmax.
  unfold binary_round_aux, shr_fexp.
  pose proof (digits_gt mx Hmx) as Hlt. pose proof (digits_nonneg mx) as Hd0.
  set (n1 := fexp prec emax (Zdigits2 mx + ex) - ex).
  destruct (shr_spec (shr_record_of_loc mx lx) ex n1) as [Hm1 He1].
  { by rewrite shr_record_of_loc_m. }
  rewrite shr_record_of_loc_m in Hm1.
  destruct (shr (shr_record_of_loc mx lx) ex n1) as [mrs1 e1].
  simpl in Hm1, He1.
  destruct (div_pow2_lt mx (Zdigits2 mx) (Z.max n1 0)) as [Hq0 Hq1];
    [done|done|lia|done|].
  rewrite <- Hm1 in Hq0, Hq1.
  pose proof (round_nearest_even_bounds (shr_m mrs1) (loc_of_shr_record mrs1))
    as [Hr0 Hr1].
  set (m1 := round_nearest_even (shr_m mrs1) (loc_of_shr_record mrs1)) in *.
  set (c := Z.max (Zdigits2 mx - Z.max n1 0) 0) in *.
  assert (Zdigits2 m1 ≤ c + 1) as Hd1.
  { apply digits_bound; [lia|lia|].
    replace (c + 1) with (Z.succ c) by lia. rewrite Z.pow_succ_r by lia.
    assert (0 < 2 ^ c) by (apply Z.pow_pos_nonneg; lia). lia. }
  pose proof (digits_gt m1 ltac:(lia)) as Hlt1.
  pose proof (digits_nonneg m1) as Hd10.
  set (n2 := fexp prec emax (Zdigits2 m1 + e1) - e1).
  destruct (shr_spec (shr_record_of_loc m1 loc_Exact) e1 n2) as [Hm2 He2].
  { simpl. lia. }
  destruct (shr (shr_record_of_loc m1 loc_Exact) e1 n2) as [mrs2 e2].
  simpl in Hm2, He2.
  destruct (div_pow2_lt m1 (Zdigits2 m1) (Z.max n2 0)) as [Hq2 Hq3];
    [lia|done|lia|done|].
  rewrite <- Hm2 in Hq2, Hq3.
  assert (Zdigits2 (shr_m mrs2) ≤ Z.max (Zdigits2 m1 - Z.max n2 0) 0) as Hd2.
  { apply digits_bound; [done|lia|done]. }
  unfold fexp, SpecFloat.emin, prec, emax in *.
  destruct (shr_m mrs2) as [|m2|m2] eqn:Hm; [done| |lia].
  assert (0 < Z.max (Zdigits2 m1 - Z.max n2 0) 0) as Hpos.
  { destruct (Z.max (Zdigits2 m1 - Z.max n2 0) 0) eqn:Hc; [|lia|lia].
    simpl in Hq3. lia. }
  subst n1 n2 c.
  destruct (e2 <=? 1024 - 53) eqn:Hle.
  - simpl. simpl in Hd2. lia.
  - apply Z.leb_gt in Hle. lia.
Qed.

Lemma digits_abs_bound n d : 0 ≤ d → Z.abs n < 2 ^ d → Zdigits2 n ≤ d.
Proof.
  intros Hd Hn. destruct n as [|p|p]; [simpl; lia| |].
  - apply digits_bound; lia.
  - change (Zdigits2 (Zneg p)) with (Zdigits2 (Zpos p)). apply digits_bound; lia.
Qed.

Lemma below_le k k' x : below k x → k ≤ k' → below k' x.
Proof. destruct x as [s|s| |s m e]; simpl; try done. lia. Qed.

Lemma iter_xO_pow m d : Zpos (Pos.iter xO m d) = Zpos m * 2 ^ Zpos d.
Proof.
  rewrite (Pos.iter_swap_gen _ _ Zpos xO (Z.mul 2)) by done.
  change (Pos.iter (Z.mul 2) (Zpos m) d) with (Z.shiftl (Zpos m) (Zpos d)).
  by rewrite Z.shiftl_mul_pow2.
Qed.

Lemma shl_align_value mx ex ez :
  ez ≤ ex →
  Zpos (shl_align mx ex ez).1 = Zpos mx * 2 ^ (ex - ez).
Proof.
  intros Hle. unfold shl_align.
  destruct (ez - ex) as [|d|d] eqn:Hd; simpl.
  - replace (ex - ez) with 0 by lia. lia.
  - lia.
  - rewrite iter_xO_pow. f_equal. f_equal. lia.
Qed.

Lemma shl_align_exponent mx ex ez :
  (shl_align mx ex ez).2 = Z.min ex ez.
Proof.
  unfold shl_align. destruct (ez - ex) as [|d|d] eqn:Hd; simpl; lia.
Qed.

Lemma mul_pow2_lt m d s :
  0 ≤ m → m < 2 ^ d → 0 ≤ d → 0 ≤ s → m * 2 ^ s < 2 ^ (d + s).
Proof.
  intros Hm Hlt Hd Hs. rewrite Z.pow_add_r by lia.
  apply Z.mul_lt_mono_pos_r; [|done]. apply Z.pow_pos_nonneg; lia.
Qed.

Lemma round_below s m e k :
  0 ≤ k → Zdigits2 (Zpos m) + e ≤ k → k + 1 ≤ emax →
  below (k + 1) (binary_round prec emax s m e).
Proof.
  intros Hk Hd Hmax. unfold binary_round.
  set (f := fexp prec emax (Z.pos (digits2_pos m) + e)).
  pose proof (shl_align_exponent m e f) as He.
  pose proof (digits_gt (Zpos m) ltac:(lia)) as Hlt.
  pose proof (digits_nonneg (Zpos m)) as Hd0.
  destruct (Z.le_gt_cases f e) as [Hfe|Hfe].
  - pose proof (shl_align_value m e f Hfe) as Hv.
    destruct (shl_align m e f) as [mz ez]. simpl in He, Hv.
    apply round_aux_below; [lia|done| |..].
    + assert (Zdigits2 (Zpos mz) ≤ Zdigits2 (Zpos m) + (e - f)); [|lia].
      apply digits_bound; [lia|lia|]. rewrite Hv.
      apply mul_pow2_lt; lia.
    + subst f. unfold fexp, SpecFloat.emin, prec, emax in *. simpl in Hd. lia.
    + done.
  - unfold shl_align in *. destruct (f - e) as [|d|d] eqn:Hfd; [lia| |lia].
    apply round_aux_below; [lia|done|done| |done].
    subst f. unfold fexp, SpecFloat.emin, prec, emax in *. simpl in Hd. lia.
Qed.

Lemma normalize_below n e k :
  0 ≤ k → Zdigits2 n + e ≤ k → k + 1 ≤ emax →
  below (k + 1) (binary_normalize prec emax n e false).
Proof.
  intros Hk Hd Hmax. destruct n as [|p|p]; simpl; [done| |]; by apply round_below.
Qed.

Lemma of_scaled_below n e k :
  0 ≤ k → Z.abs n < 2 ^ (k - e) → e ≤ k → k + 1 ≤ emax →
  below (k + 1) (of_scaled n e).
Proof.
  intros Hk Hn He Hmax. apply normalize_below; [done| |done].
  assert (Zdigits2 n ≤ k - e); [|lia].
  apply digits_abs_bound; lia.
Qed.

Lemma of_int_below n k x :
  0 ≤ k → Z.abs n < 2 ^ k → k + 1 ≤ emax →
  of_int n = Ok x → below (k + 1) x.
Proof.
  intros Hk Hn Hmax. unfold of_int, nearest.
  pose proof (of_scaled_below n 0 k Hk) as H. rewrite Z.sub_0_r in H.
  specialize (H Hn Hk Hmax).
  destruct (of_scaled n 0); try done; by intros [= <-].
Qed.

Lemma add_below kx ky x y :
  0 ≤ kx → 0 ≤ ky → below kx x → below ky y →
  Z.max kx ky + 2 ≤ emax →
  below (Z.max kx ky + 2) (add x y).
Proof.
  intros Hkx Hky Hx Hy Hmax. unfold add.
  destruct x as [sx|sx| |sx mx ex], y as [sy|sy| |sy my ey]; simpl in *;
    try done.
  - by destruct sx, sy.
  - lia.
  - lia.
  - set (ez := Z.min ex ey).
    pose proof (shl_align_value mx ex ez ltac:(lia)) as Ha.
    pose proof (shl_align_value my ey ez ltac:(lia)) as Hb.
    pose proof (digits_gt (Zpos mx) ltac:(lia)) as Hlx.
    pose proof (digits_gt (Zpos my) ltac:(lia)) as Hly.
    simpl in Hlx, Hly.
    set (a := Zpos (shl_align mx ex ez).1) in *.
    set (b := Zpos (shl_align my ey ez).1) in *.
    assert (a < 2 ^ (Z.max kx ky - ez)) as Ha'.
    { rewrite Ha. eapply Z.lt_le_trans;
        [apply (mul_pow2_lt _ (Zpos (digits2_pos mx))); lia|].
      apply Z.pow_le_mono_r; lia. }
    assert (b < 2 ^ (Z.max kx ky - ez)) as Hb'.
    { rewrite Hb. eapply Z.lt_le_trans;
        [apply (mul_pow2_lt _ (Zpos (digits2_pos my))); lia|].
      apply Z.pow_le_mono_r; lia. }
    replace (Z.max kx ky + 2) with (Z.max kx ky + 1 + 1) by lia.
    apply normalize_below; [lia| |lia].
    assert (Zdigits2 (cond_Zopp sx a + cond_Zopp sy b) ≤ Z.max kx ky + 1 - ez);
      [|lia].
    assert (0 < a ∧ 0 < b) as [Ha0 Hb0] by (subst a b; lia).
    assert (Z.abs (cond_Zopp sx a + cond_Zopp sy b) < 2 ^ (Z.max kx ky + 1 - ez))
      as Habs.
    { replace (Z.max kx ky + 1 - ez) with (Z.succ (Z.max kx ky - ez)) by lia.
      rewrite Z.pow_succ_r by lia. destruct sx, sy; simpl; lia. }
    apply digits_abs_bound; lia.
Qed.

Lemma mul_below kx ky x y :
  below kx x → below ky y →
  0 ≤ kx + ky → kx + ky + 1 ≤ emax - prec →
  below (kx + ky + 1) (mul x y).
Proof.
  intros Hx Hy Hk Hmax. unfold mul.
  destruct x as [sx|sx| |sx mx ex], y as [sy|sy| |sy my ey]; simpl in *;
    try done.
  pose proof (digits_gt (Zpos mx) ltac:(lia)) as Hlx.
  pose proof (digits_gt (Zpos my) ltac:(lia)) as Hly.
  simpl in Hlx, Hly.
  assert (Zdigits2 (Zpos (mx * my)) ≤ Zpos (digits2_pos mx) + Zpos (digits2_pos my))
    as Hd.
  { apply digits_bound; [lia|lia|]. rewrite Z.pow_add_r, Pos2Z.inj_mul by lia.
    apply Z.mul_lt_mono_nonneg; lia. }
  apply round_aux_below; unfold prec, emax in *; simpl in *; lia.
Qed.

Lemma div_below kx x sy my ey :
  below kx x →
  0 ≤ kx - (Zdigits2 (Zpos my) + ey) + 1 →
  kx - (Zdigits2 (Zpos my) + ey) + 2 ≤ emax →
  below (kx - (Zdigits2 (Zpos my) + ey) + 2) (div x (S754_finite sy my ey)).
Proof.
  intros Hx Hk Hmax. unfold div.
  destruct x as [sx|sx| |sx mx ex]; simpl in Hx; try done.
  unfold SFdiv, SFdiv_core_binary.
  set (d1 := Zdigits2 (Zpos mx)). set (d2 := Zdigits2 (Zpos my)) in *.
  assert (d1 + ex ≤ kx) as Hx' by exact Hx.
  pose proof (digits_gt (Zpos mx) ltac:(lia)) as Hlx.
  pose proof (digits_le my) as Hly. fold d1 in Hlx. fold d2 in Hly.
  assert (1 ≤ d1 ∧ 1 ≤ d2) as [Hd1 Hd2] by (subst d1 d2; simpl; lia).
  clearbody d1 d2. clear Hx.
  set (e' := Z.min (fexp prec emax (d1 + ex - (d2 + ey))) (ex - ey)).
  set (s := ex - ey - e').
  set (m' := match s with 0 => Zpos mx | Zpos _ => Z.shiftl (Zpos mx) s
             | Zneg _ => 0 end).
  assert (0 ≤ s) as Hs by (subst s e'; lia).
  assert (m' = Zpos mx * 2 ^ s) as Hm'.
  { subst m'. destruct s as [|p|p] eqn:Hsp; [lia| |lia].
    by rewrite Z.shiftl_mul_pow2. }
  clearbody m'.
  pose proof (Z_div_mod m' (Zpos my) ltac:(lia)) as Hdiv.
  destruct (Z.div_eucl m' (Zpos my)) as [q r]. destruct Hdiv as [Hq Hr].
  assert (m' < 2 ^ (d1 + s)) as Hlt.
  { rewrite Hm'. apply mul_pow2_lt; lia. }
  assert (0 ≤ q) as Hq0.
  { destruct (Z.le_gt_cases 0 q); [done|]. nia. }
  assert (Zdigits2 q ≤ Z.max (d1 + s - d2 + 1) 0) as Hdq.
  { apply digits_bound; [done|lia|].
    destruct (Z.le_gt_cases 0 (d1 + s - d2 + 1)) as [Hc|Hc].
    - rewrite Z.max_l by lia.
      assert (2 ^ (d1 + s) = 2 ^ (d2 - 1) * 2 ^ (d1 + s - d2 + 1)) as Hsplit.
      { rewrite <- Z.pow_add_r by lia. f_equal. lia. }
      assert (0 < 2 ^ (d2 - 1)) by (apply Z.pow_pos_nonneg; lia).
      assert (0 < 2 ^ (d1 + s - d2 + 1)) by (apply Z.pow_pos_nonneg; lia).
      destruct (Z.lt_ge_cases q (2 ^ (d1 + s - d2 + 1))) as [|Hge]; [done|].
      assert (2 ^ (d2 - 1) * 2 ^ (d1 + s - d2 + 1) ≤ Zpos my * q); [|lia].
      apply Z.mul_le_mono_nonneg; lia.
    - rewrite Z.max_r by lia. simpl.
      assert (2 ^ (d1 + s) ≤ 2 ^ (d2 - 1)) by (apply Z.pow_le_mono_r; lia).
      destruct (Z.lt_ge_cases q 1) as [|Hge]; [done|]. nia. }
  replace (kx - (d2 + ey) + 2) with (kx - (d2 + ey) + 1 + 1) by lia.
  apply round_aux_below; [done|done| | |lia];
    subst s e'; unfold fexp, SpecFloat.emin, prec, emax in *; lia.
Qed.

Lemma div_half_even_bounds n d :
  0 ≤ n → 0 < d → 0 ≤ div_half_even n d ≤ n / d + 1.
Proof.
  intros Hn Hd. unfold div_half_even.
  assert (0 ≤ n / d) by (apply Z.div_pos; lia).
  destruct (2 * (n `mod` d) ?= d); [destruct (Z.even _)|..]; lia.
Qed.

Lemma round1_below k x :
  0 ≤ k → below k x → k + 2 ≤ emax → below (k + 2) (round1 x).
Proof.
  intros Hk Hx Hmax. destruct x as [s|s| |s m e]; simpl in *; try done.
  pose proof (digits_gt (Zpos m) ltac:(lia)) as Hlt. simpl in Hlt.
  assert (∃ n d, magnitude m e = (n, d) ∧ 0 ≤ n ∧ 0 < d ∧ n < 2 ^ k * d)
    as (n & d & -> & Hn & Hd & Hnd).
  { assert (∀ e', 0 ≤ e' → Zpos (digits2_pos m) + e' ≤ k →
              0 ≤ Zpos m * 2 ^ e' ∧ 0 < 1 ∧ Zpos m * 2 ^ e' < 2 ^ k * 1) as Hpos.
    { intros e' He' Hke. rewrite Z.mul_1_r.
      assert (0 < 2 ^ e') by (apply Z.pow_pos_nonneg; lia).
      split; [lia|]. split; [lia|].
      eapply Z.lt_le_trans;
        [apply (mul_pow2_lt _ (Zpos (digits2_pos m))); lia|].
      apply Z.pow_le_mono_r; lia. }
    unfold magnitude. destruct e as [|p|p]; eexists _, _; (split; [done|]).
    - by apply Hpos.
    - by apply Hpos.
    - assert (0 < 2 ^ Zpos p) by (apply Z.pow_pos_nonneg; lia).
      split; [lia|]. split; [done|]. rewrite <- Z.pow_add_r by lia.
      eapply Z.lt_le_trans; [exact Hlt|]. apply Z.pow_le_mono_r; lia. }
  pose proof (div_half_even_bounds (10 * n) d ltac:(lia) Hd) as [Hh0 Hh1].
  destruct (div_half_even (10 * n) d) as [|h|h] eqn:Hh; [done| |lia].
  assert (0 < 2 ^ k) by (apply Z.pow_pos_nonneg; lia).
  assert (10 * n / d < 10 * 2 ^ k) as Hq.
  { apply Z.div_lt_upper_bound; [done|]. nia. }
  assert (below (k + 4) (S754_finite s h 0)) as Hb.
  { simpl. assert (Zdigits2 (Zpos h) ≤ k + 4); [|simpl in *; lia].
    apply digits_bound; [lia|lia|].
    rewrite Z.pow_add_r by lia. change (2 ^ 4) with 16. lia. }
  pose proof (div_below (k + 4) _ false 10 0 Hb) as H'.
  change (Zdigits2 10 + 0) with 4 in H'.
  replace (k + 4 - 4 + 2) with (k + 2) in H' by lia.
  apply H'; lia.
Qed.

Lemma digits_mono a b : 0 ≤ a → a ≤ b → Zdigits2 a ≤ Zdigits2 b.
Proof.
  intros Ha Hab. apply digits_bound; [done|apply digits_nonneg|].
  pose proof (digits_gt b ltac:(lia)). lia.
Qed.

Lemma digits_eq m d : 1 ≤ d → 2 ^ (d - 1) ≤ m → m < 2 ^ d → Zdigits2 m = d.
Proof.
  intros Hd Hle Hlt.
  assert (0 < 2 ^ (d - 1)) by (apply Z.pow_pos_nonneg; lia).
  pose proof (digits_bound m d ltac:(lia) ltac:(lia) Hlt) as Hub.
  pose proof (digits_gt m ltac:(lia)) as Hgt.
  pose proof (digits_nonneg m) as H0.
  destruct (Z.le_gt_cases d (Zdigits2 m)) as [|Hlow]; [lia|].
  assert (2 ^ Zdigits2 m ≤ 2 ^ (d - 1)); [|lia].
  apply Z.pow_le_mono_r; lia.
Qed.

Lemma digits_pos m : 0 < m → 1 ≤ Zdigits2 m ∧ 2 ^ (Zdigits2 m - 1) ≤ m.
Proof.
  destruct m as [|p|p]; [lia| |lia]. intros _. split; [simpl; lia|].
  apply digits_le.
Qed.

Lemma digits_shiftr m n :
  0 < m → 0 ≤ n → 0 < m / 2 ^ n → Zdigits2 (m / 2 ^ n) = Zdigits2 m - n.
Proof.
  intros Hm Hn Hq.
  destruct (digits_pos m Hm) as [Hd Hle].
  pose proof (digits_gt m ltac:(lia)) as Hgt.
  assert (0 < 2 ^ n) by (apply Z.pow_pos_nonneg; lia).
  assert (n < Zdigits2 m) as Hnd.
  { destruct (Z.lt_ge_cases n (Zdigits2 m)) as [|Hge]; [done|].
    assert (2 ^ Zdigits2 m ≤ 2 ^ n) by (apply Z.pow_le_mono_r; lia).
    rewrite Z.div_small in Hq by lia. lia. }
  apply digits_eq; [lia| |].
  - apply Z.div_le_lower_bound; [done|].
    rewrite <- Z.pow_add_r by lia.
    by replace (n + (Zdigits2 m - n - 1)) with (Zdigits2 m - 1) by lia.
  - apply Z.div_lt_upper_bound; [done|].
    rewrite <- Z.pow_add_r by lia.
    by replace (n + (Zdigits2 m - n)) with (Zdigits2 m) by lia.
Qed.

Lemma digits_shiftl m n :
  0 < m → 0 ≤ n → Zdigits2 (m * 2 ^ n) = Zdigits2 m + n.
Proof.
  intros Hm Hn.
  destruct (digits_pos m Hm) as [Hd Hle].
  pose proof (digits_gt m ltac:(lia)) as Hgt.
  assert (0 < 2 ^ n) by (apply Z.pow_pos_nonneg; lia).
  apply digits_eq; [lia| |].
  - replace (Zdigits2 m + n - 1) with (Zdigits2 m - 1 + n) by lia.
    rewrite Z.pow_add_r by lia. apply Z.mul_le_mono_nonneg_r; lia.
  - apply mul_pow2_lt; lia.
Qed.

(** What rounding gives is canonical, when no digit of the mantissa lies
    below the exponent of the format. *)
Lemma round_aux_canonical s mx ex lx :
  0 ≤ mx →
  ex ≤ fexp prec emax (Zdigits2 mx + ex) →
  canonical (binary_round_aux prec emax s mx ex lx).
Proof.
  intros Hmx Hal. unfold binary_round_aux, shr_fexp.
  pose proof (digits_gt mx Hmx) as Hlt. pose proof (digits_nonneg mx) as Hd0.
  set (f1 := fexp prec emax (Zdigits2 mx + ex)) in *.
  destruct (shr_spec (shr_record_of_loc mx lx) ex (f1 - ex)) as [Hm1 He1].
  { by rewrite shr_record_of_loc_m. }
  rewrite shr_record_of_loc_m in Hm1.
  destruct (shr (shr_record_of_loc mx lx) ex (f1 - ex)) as [mrs1 e1].
  simpl in Hm1, He1.
  rewrite Z.max_l in Hm1, He1 by lia.
  assert (e1 = f1) as -> by lia. clear He1.
  assert (0 < 2 ^ (f1 - ex)) as Hp1 by (apply Z.pow_pos_nonneg; lia).
  assert (0 ≤ shr_m mrs1) as Hm10 by (rewrite Hm1; apply Z.div_pos; lia).
  pose proof (round_nearest_even_bounds (shr_m mrs1) (loc_of_shr_record mrs1))
    as [Hr0 Hr1].
  set (m1 := round_nearest_even (shr_m mrs1) (loc_of_shr_record mrs1)) in *.
  assert (f1 ≤ fexp prec emax (Zdigits2 m1 + f1)) as Hal2.
  { pose proof (digits_nonneg m1) as Hd1.
    destruct (Z.le_gt_cases (shr_m mrs1) 0) as [Hz|Hpos].
    - assert (shr_m mrs1 = 0) as Hz' by lia. rewrite Hm1 in Hz'.
      assert (mx < 2 ^ (f1 - ex)) as Hsmall.
      { destruct (Z.lt_ge_cases mx (2 ^ (f1 - ex))) as [|Hge]; [done|].
        assert (1 ≤ mx / 2 ^ (f1 - ex)); [|lia].
        apply Z.div_le_lower_bound; lia. }
      assert (Zdigits2 mx ≤ f1 - ex) by (apply digits_bound; lia).
      subst f1. unfold fexp, SpecFloat.emin, prec, emax in *. lia.
    - assert (0 < mx) as Hmx'.
      { destruct (Z.le_gt_cases mx 0); [|lia].
        assert (mx = 0) as -> by lia. rewrite Z.div_0_l in Hm1 by lia. lia. }
      rewrite Hm1 in Hpos.
      pose proof (digits_shiftr mx (f1 - ex) Hmx' ltac:(lia) Hpos) as Hds.
      rewrite <- Hm1 in Hds.
      pose proof (digits_mono (shr_m mrs1) m1 Hm10 Hr0) as Hmono.
      subst f1. unfold fexp, SpecFloat.emin, prec, emax in *. lia. }
  set (f2 := fexp prec emax (Zdigits2 m1 + f1)) in *.
  destruct (shr_spec (shr_record_of_loc m1 loc_Exact) f1 (f2 - f1)) as [Hm2 He2].
  { simpl. lia. }
  destruct (shr (shr_record_of_loc m1 loc_Exact) f1 (f2 - f1)) as [mrs2 e2].
  simpl in Hm2, He2. rewrite Z.max_l in Hm2, He2 by lia.
  assert (e2 = f2) as -> by lia. clear He2.
  destruct (shr_m mrs2) as [|m2|m2] eqn:Hm; [done| |done].
  destruct (f2 <=? emax - prec); [|done]. simpl.
  assert (0 < m1) as Hm1'.
  { destruct (Z.le_gt_cases m1 0); [|lia].
    assert (m1 = 0) as Hz by lia. rewrite Hz, Z.div_0_l in Hm2; [lia|].
    apply Z.pow_nonzero; lia. }
  pose proof (digits_shiftr m1 (f2 - f1) Hm1' ltac:(lia) ltac:(lia)) as Hds.
  rewrite <- Hm2 in Hds. simpl in Hds. rewrite Hds.
  replace (Zdigits2 m1 - (f2 - f1) + f2) with (Zdigits2 m1 + f1) by lia.
  done.
Qed.

Lemma round_canonical s m e : canonical (binary_round prec emax s m e).
Proof.
  unfold binary_round.
  set (f := fexp prec emax (Z.pos (digits2_pos m) + e)).
  destruct (Z.le_gt_cases f e) as [Hfe|Hfe].
  - pose proof (shl_align_value m e f Hfe) as Hv.
    pose proof (shl_align_exponent m e f) as He.
    destruct (shl_align m e f) as [mz ez]. simpl in He, Hv.
    apply round_aux_canonical; [lia|].
    rewrite Hv, digits_shiftl by lia.
    replace (Zdigits2 (Zpos m) + (e - f) + ez) with (Zdigits2 (Zpos m) + e) by lia.
    simpl. fold f. lia.
  - unfold shl_align. destruct (f - e) as [|d|d] eqn:Hfd; [lia| |lia].
    apply round_aux_canonical; [lia|]. simpl. fold f. lia.
Qed.

Lemma add_finite_canonical sx mx ex sy my ey :
  canonical (add (S754_finite sx mx ex) (S754_finite sy my ey)).
Proof.
  unfold add. simpl.
  destruct (_ + _) as [|p|p]; simpl; [done|apply round_canonical..].
Qed.

Lemma shr_1_r mrs : 0 ≤ shr_m mrs → shr_r (shr_1 mrs) = Z.odd (shr_m mrs).
Proof. destruct mrs as [m r s]. simpl. by destruct m as [|[p|p|]|p]. Qed.

Lemma shr_r_iter p mrs :
  0 ≤ shr_m mrs →
  shr_r (Pos.iter shr_1 mrs p) = Z.odd (shr_m mrs / 2 ^ (Zpos p - 1)).
Proof.
  intros Hm. destruct (Pos.eq_dec p 1%positive) as [->|Hne].
  - simpl. by rewrite shr_1_r, Z.div_1_r.
  - destruct (Pos.succ_pred_or p) as [|Hp]; [done|].
    rewrite <- Hp, Pos.iter_succ, shr_1_r.
    + rewrite shr_m_iter by done. do 3 f_equal. lia.
    + rewrite shr_m_iter by done. apply Z.div_pos; [done|].
      apply Z.pow_pos_nonneg; lia.
Qed.

(** Adding a number below half a unit in the last place of a positive
    number of full precision changes nothing. *)
Lemma add_absorbs ma ea mt et :
  Zdigits2 (Zpos ma) = prec →
  SpecFloat.emin prec emax ≤ ea → ea ≤ emax - prec →
  Zdigits2 (Zpos mt) + et ≤ ea - 1 →
  add (S754_finite false ma ea) (S754_finite false mt et) = S754_finite false ma ea.
Proof.
  intros Hda Hmin Hmax Ht. unfold add, SFadd.
  pose proof (digits_pos (Zpos mt) ltac:(lia)) as [Hdt _].
  pose proof (digits_gt (Zpos mt) ltac:(lia)) as Hlt.
  pose proof (digits_pos (Zpos ma) ltac:(lia)) as [_ Hla].
  pose proof (digits_gt (Zpos ma) ltac:(lia)) as Hga.
  rewrite Hda in Hla, Hga.
  rewrite Z.min_r by lia.
  rewrite (shl_align_value ma ea et) by lia.
  rewrite (shl_align_value mt et et) by lia.
  rewrite Z.sub_diag, Z.mul_1_r. simpl cond_Zopp.
  set (n := ea - et). assert (2 ≤ n) as Hn by (subst n; lia).
  assert (0 < 2 ^ n) as Hpn by (apply Z.pow_pos_nonneg; lia).
  assert (0 < 2 ^ (n - 1)) as Hpn1 by (apply Z.pow_pos_nonneg; lia).
  assert (2 ^ n = 2 * 2 ^ (n - 1)) as Hsplit.
  { rewrite <- Z.pow_succ_r by lia. f_equal. lia. }
  assert (Zpos mt < 2 ^ (n - 1)) as Hb.
  { eapply Z.lt_le_trans; [exact Hlt|]. apply Z.pow_le_mono_r; subst n; lia. }
  destruct (Zpos ma * 2 ^ n + Zpos mt) as [|p|p] eqn:Hsum; [lia| |lia].
  assert (Zdigits2 (Zpos p) = prec + n) as Hdp.
  { apply digits_eq; [unfold prec; lia| |].
    - replace (prec + n - 1) with (prec - 1 + n) by lia.
      rewrite Z.pow_add_r by (unfold prec; lia). nia.
    - rewrite Z.pow_add_r by (unfold prec; lia). nia. }
  unfold binary_normalize, binary_round.
  change (Zpos (digits2_pos p)) with (Zdigits2 (Zpos p)). rewrite Hdp.
  assert (fexp prec emax (prec + n + et) = ea) as Hf.
  { subst n. unfold fexp, SpecFloat.emin, prec, emax in *. lia. }
  rewrite Hf. unfold shl_align.
  destruct (ea - et) as [|q|q] eqn:Hq; [lia| |lia].
  unfold binary_round_aux, shr_fexp. rewrite Hdp, Hf, Hq. simpl shr.
  rewrite iter_pos_iter.
  pose proof (shr_m_iter q {| shr_m := Zpos p; shr_r := false; shr_s := false |}
                ltac:(simpl; lia)) as Hm.
  pose proof (shr_r_iter q {| shr_m := Zpos p; shr_r := false; shr_s := false |}
                ltac:(simpl; lia)) as Hr.
  simpl shr_m in Hm, Hr.
  assert (Zpos q = n) as Hqn by (subst n; lia). rewrite Hqn in Hm, Hr.
  assert (Zpos p / 2 ^ n = Zpos ma) as Hdiv.
  { rewrite <- Hsum. rewrite Z.div_add_l by lia. rewrite Z.div_small by lia. lia. }
  assert (Z.odd (Zpos p / 2 ^ (n - 1)) = false) as Hodd.
  { rewrite <- Hsum, Hsplit.
    replace (Zpos ma * (2 * 2 ^ (n - 1))) with (2 * Zpos ma * 2 ^ (n - 1)) by lia.
    rewrite Z.div_add_l by lia. rewrite Z.div_small by lia.
    rewrite Z.add_0_r, Z.odd_mul. done. }
  rewrite Hdiv in Hm. rewrite Hodd in Hr.
  destruct (Pos.iter shr_1 _ q) as [m1 r1 s1]. simpl in Hm, Hr. subst m1 r1.
  cbn [shr_m].
  assert (round_nearest_even (Zpos ma)
            (loc_of_shr_record {| shr_m := Zpos ma; shr_r := false; shr_s := s1 |})
          = Zpos ma) as -> by by destruct s1.
  change (Zdigits2 (Zpos ma)) with (Zpos (digits2_pos ma)) in Hda.
  simpl Zdigits2. rewrite Hda.
  replace (et + Zpos q) with ea by lia.
  assert (fexp prec emax (prec + ea) - ea = 0) as ->.
  { unfold fexp, SpecFloat.emin, prec, emax in *. lia. }
  simpl. destruct (Z.leb_spec ea (emax - prec)); [done|lia].
Qed.

End FloatRange.

(** ** The arithmetic of [check_shm] *)

Module ShmFacts.
Import PyFloat FloatFacts FloatLemmas.

Lemma result_bind_Ok {A B} (r : result A) (k : A → result B) b :
  r ≫= k = Ok b → ∃ a, r = Ok a ∧ k a = Ok b.
Proof. destruct r as [a|e]; [eauto | done]. Qed.

Lemma frame_size_nonneg c x :
  0 ≤ width (detect c) * height (detect c) →
  Shm.frame_size c = Ok x → nonneg x.
Proof.
  intros Hwh H. apply result_bind_Ok in H as (wh & Hwh' & [= <-]).
  apply round1_nonneg, div_nonneg; [|done|done].
  apply add_nonneg; [|done]. apply mul_nonneg; [|done].
  by eapply of_int_nonneg.
Qed.

Lemma cam_total_nonneg cams : ∀ acc total,
  Forall sane_resolution cams → nonneg acc →
  Shm.cam_total_frame_size cams acc = Ok total → nonneg total.
Proof.
  induction cams as [|[name c] rest IH]; intros acc total Hsane Hacc; simpl.
  - by intros [= <-].
  - apply Forall_cons in Hsane as [Hc Hrest].
    destruct (enabled c) eqn:Hen; [|by apply IH].
    intros H. apply result_bind_Ok in H as (size & Hsize & H).
    eapply IH; [done| |done].
    apply add_nonneg; [done|]. eapply frame_size_nonneg; [|done]. by apply Hc.
Qed.

Lemma cam_total_as_sum cams : ∀ acc,
  Shm.cam_total_frame_size cams acc =
  (xs ← PlannerSpec.sizes (filter (λ c, enabled c = true) (map snd cams));
   Ok (foldl add acc xs)).
Proof.
  induction cams as [|[name c] rest IH]; intros acc; simpl; [done|].
  destruct (enabled c) eqn:Hen.
  - rewrite filter_cons_True by done. simpl.
    change (PlannerSpec.frame_size_mb c) with (Shm.frame_size c).
    destruct (Shm.frame_size c) as [size|e]; simpl; [|done].
    rewrite IH. by destruct (PlannerSpec.sizes _).
  - rewrite filter_cons_False by (rewrite Hen; done). apply IH.
Qed.

Lemma min_req_is_reserve cfg :
  Shm.min_req_shm cfg = PlannerSpec.reserve (birdseye_restream cfg).
Proof. unfold Shm.min_req_shm, PlannerSpec.reserve. by destruct (birdseye_restream cfg). Qed.

Lemma frame_count_as_plan cfg disk_total :
  Shm.frame_count cfg disk_total =
  (total_mb ← Shm.total_shm disk_total;
   PlannerSpec.plan_with to_int total_mb cfg).
Proof.
  unfold Shm.frame_count, Shm.compute, PlannerSpec.plan_with,
    PlannerSpec.total_frame_size, PlannerSpec.enabled_cameras, PlannerSpec.available.
  destruct (Shm.total_shm disk_total) as [total|e]; simpl; [|done].
  rewrite cam_total_as_sum, min_req_is_reserve.
  destruct (PlannerSpec.sizes _) as [xs|e]; simpl; [|done].
  destruct (truediv _ _) as [q|e]; simpl; [|done].
  by destruct (to_int q).
Qed.

Lemma compute_inv cfg disk_total p :
  Shm.compute cfg disk_total = Ok p →
  ∃ q n,
    Shm.total_shm disk_total = Ok (Shm.plan_total_shm p) ∧
    Shm.plan_min_req_shm p = Shm.min_req_shm cfg ∧
    Shm.plan_available_shm p = sub (Shm.plan_total_shm p) (lit (Shm.min_req_shm cfg)) ∧
    Shm.cam_total_frame_size (cameras cfg) pzero = Ok (Shm.plan_cam_total p) ∧
    truediv (Shm.plan_available_shm p) (Shm.plan_cam_total p) = Ok q ∧
    to_int q = Ok n ∧
    Shm.plan_frame_count p = Z.min 50 n.
Proof.
  unfold Shm.compute. intros H.
  apply result_bind_Ok in H as (total & Htotal & H).
  apply result_bind_Ok in H as (cam_total & Hcam & H).
  apply result_bind_Ok in H as (q & Hq & H).
  apply result_bind_Ok in H as (n & Hn & [= <-]).
  exists q, n. simpl. done.
Qed.

Lemma truediv_Ok x y q : truediv x y = Ok q → is_zero y = false ∧ q = div x y.
Proof. unfold truediv. destruct (is_zero y); [done|]. by intros [= <-]. Qed.

Lemma quotient_nonneg cfg disk_total p q :
  Shm.compute cfg disk_total = Ok p →
  leb pzero (Shm.plan_available_shm p) = true →
  Forall sane_resolution (cameras cfg) →
  truediv (Shm.plan_available_shm p) (Shm.plan_cam_total p) = Ok q →
  nonneg q.
Proof.
  intros Hp Hav Hsane Hq.
  apply compute_inv in Hp as (q' & n & _ & _ & _ & Hcam & _).
  apply truediv_Ok in Hq as [Hz ->].
  apply div_nonneg; [by apply leb_pzero_nonneg| |done].
  by apply (cam_total_nonneg (cameras cfg) pzero).
Qed.

End ShmFacts.

(** ** The summed frame size stays finite *)

Module ShmRange.
Import PyFloat FloatFacts FloatLemmas FloatRange ShmFacts.

Lemma frame_size_below c x :
  Z.abs (width (detect c) * height (detect c)) < 2 ^ 64 →
  Shm.frame_size c = Ok x → below 52 x.
Proof.
  intros Hwh H. apply result_bind_Ok in H as (wh & Hwh' & [= <-]).
  apply (of_int_below _ 64) in Hwh'; [|done..].
  assert (below 1 one_and_half) as H15 by by vm_compute.
  assert (below 67 (mul wh one_and_half)) as Hmul
    by by apply (mul_below 65 1).
  assert (below 19 (lit 270480)) as Hlit by by vm_compute.
  assert (below 69 (add (mul wh one_and_half) (lit 270480))) as Hadd
    by by apply (add_below 67 19).
  assert (lit 1048576 = S754_finite false 4503599627370496 (-32)) as Hl
    by by vm_compute.
  change (binary_round prec emax false 1048576 0) with (lit 1048576).
  change (binary_round prec emax false 270480 0) with (lit 270480).
  rewrite Hl.
  assert (below 50 (div (add (mul wh one_and_half) (lit 270480))
                        (S754_finite false 4503599627370496 (-32)))) as Hdiv
    by by apply (div_below 69).
  by apply (round1_below 50).
Qed.

Lemma partial_sum_add acc size :
  partial_sum acc → nonneg size → below 52 size → partial_sum (add acc size).
Proof.
  intros (Hn & Hb & Hc) Hns Hbs.
  destruct acc as [sa|sa| |sa ma ea]; simpl in Hn, Hb; try done.
  - destruct size as [ss|ss| |ss ms es]; simpl in Hns, Hbs; try done.
    + unfold add. simpl. by destruct sa, ss.
    + unfold add, partial_sum. simpl. split; [done|]. split; [lia|]. left. lia.
  - subst sa. destruct size as [ss|ss| |ss ms es]; simpl in Hns, Hbs; try done.
    subst ss.
    destruct (Z.le_gt_cases (Zdigits2 (Zpos ma) + ea) 107) as [Hsmall|Hbig].
    + split; [by apply add_nonneg|]. split.
      * by apply (add_below 107 52).
      * right. apply add_finite_canonical.
    + simpl in Hbig, Hbs. destruct Hc as [Hc|Hc]; [simpl in Hc; lia|].
      simpl in Hc. rewrite add_absorbs.
      * split; [done|]. split; [done|]. by right.
      * unfold fexp, SpecFloat.emin, prec, emax in *. simpl in *. lia.
      * unfold fexp, SpecFloat.emin, prec, emax in *. simpl in *. lia.
      * unfold fexp, SpecFloat.emin, prec, emax in *. simpl in *. lia.
      * unfold fexp, SpecFloat.emin, prec, emax in *. simpl in *. lia.
Qed.

Lemma cam_total_partial_sum cams : ∀ acc total,
  Forall bounded_resolution cams →
  partial_sum acc →
  Shm.cam_total_frame_size cams acc = Ok total →
  partial_sum total.
Proof.
  induction cams as [|[name c] rest IH]; intros acc total Hb Hacc; simpl.
  - by intros [= <-].
  - apply Forall_cons in Hb as [Hc Hrest]. unfold bounded_resolution in Hc.
    simpl in Hc. destruct (enabled c) eqn:Hen; [|by apply IH].
    intros H. apply result_bind_Ok in H as (size & Hsize & H).
    eapply IH; [done| |done].
    apply partial_sum_add; [done| |].
    + eapply frame_size_nonneg; [|done]. by apply Hc.
    + eapply frame_size_below; [|done]. specialize (Hc eq_refl). lia.
Qed.

Lemma round0_below k x : below k x → ∃ n, round0 x = Ok n.
Proof.
  destruct x as [s|s| |s m e]; simpl; try done.
  - by exists 0.
  - intros _. destruct (magnitude m e). by eexists.
Qed.

(** Where every enabled camera has a number of pixels in range, the size
    recommended by the warning of [check_shm] is computable. *)
Lemma recommended_computable cfg disk_total p :
  Forall bounded_resolution (cameras cfg) →
  Shm.compute cfg disk_total = Ok p →
  ∃ recommended,
    round0 (add (lit (Shm.plan_min_req_shm p)) (Shm.plan_cam_total p)) = Ok recommended.
Proof.
  intros Hb Hp.
  apply compute_inv in Hp as (q & n & _ & -> & _ & Hcam & _).
  apply cam_total_partial_sum in Hcam as (_ & Hcam & _); [|done|].
  2:{ split; [done|]. split; [done|]. by left. }
  assert (below 6 (lit (Shm.min_req_shm cfg))) as Hlit.
  { unfold Shm.min_req_shm. destruct (birdseye_restream cfg); by vm_compute. }
  by eapply round0_below, (add_below 6 109).
Qed.

End ShmRange.

Import PyFloat FloatFacts FloatLemmas ShmFacts.

(** C1, as stated, fails: with an empty [/dev/shm] capacity (0 bytes, a
    non-negative total) and one enabled 1280x720 camera, [check_shm] computes
    -31 frames per camera, outside [0, 50]. *)
Lemma frame_count_negative :
  ∃ n, Shm.frame_count one_camera 0 = Ok n ∧ ¬ (0 ≤ n ≤ 50).
Proof. exists (-31). split; [by vm_compute | lia]. Qed.

(** C1, amended: a frame count computed by [check_shm] is at most 50; it
    is at least 0 when the available shared memory (total minus reserve) is
    not negative and no enabled camera has a negative number of pixels. *)
Theorem frame_count_range cfg disk_total p :
  Shm.compute cfg disk_total = Ok p →
  Shm.plan_frame_count p ≤ 50 ∧
  (leb pzero (Shm.plan_available_shm p) = true →
   Forall sane_resolution (cameras cfg) →
   0 ≤ Shm.plan_frame_count p).
Proof.
  intros Hp. pose proof Hp as (q & n & _ & _ & _ & _ & Hq & Hn & ->)%compute_inv.
  split; [lia|]. intros Hav Hsane.
  assert (nonneg q) as Hnn by by eapply quotient_nonneg.
  apply to_int_nonneg in Hn as [? _]; [lia|done].
Qed.

Lemma frame_count_range_witness :
  ∃ p, Shm.compute one_camera (256 * 1048576) = Ok p ∧
       Shm.plan_frame_count p ≤ 50 ∧ 0 ≤ Shm.plan_frame_count p.
Proof.
  eexists. split; [vm_compute; reflexivity|].
  match goal with
  | |- Shm.plan_frame_count ?p ≤ 50 ∧ _ =>
      destruct (frame_count_range one_camera (256 * 1048576) p) as [Hle Hge];
        [vm_compute; reflexivity|]
  end.
  split; [exact Hle|]. apply Hge; [vm_compute; reflexivity|].
  repeat constructor; intros _; simpl; lia.
Defined.

(** C2, as stated, fails: with 0 bytes of shared memory and one enabled
    1280x720 camera the code computes -31, the floor formula gives -32. *)
Lemma floor_formula_differs :
  Shm.frame_count one_camera 0 = Ok (-31) ∧
  (total_mb ← Shm.total_shm 0; PlannerSpec.plan total_mb one_camera) = Ok (-32).
Proof. split; by vm_compute. Qed.

(** C2, amended: [check_shm] computes [min(50, int(available /
    total_frame_size))], [int] truncating towards zero, with [available] and
    [total_frame_size] as the specification words them; this is the floor
    formula whenever [available] is not negative and no enabled camera has a
    negative number of pixels.  With 256 MB, restream enabled and two
    1280x720 cameras the result is 50; with 100 MB, no restream and cameras
    summing to 6 MB it is 8. *)
Theorem check_shm_formula :
  (∀ cfg disk_total,
     Shm.frame_count cfg disk_total =
     (total_mb ← Shm.total_shm disk_total;
      PlannerSpec.plan_with to_int total_mb cfg)) ∧
  (∀ cfg disk_total p,
     Shm.compute cfg disk_total = Ok p →
     leb pzero (Shm.plan_available_shm p) = true →
     Forall sane_resolution (cameras cfg) →
     PlannerSpec.plan (Shm.plan_total_shm p) cfg = Ok (Shm.plan_frame_count p)) ∧
  (∀ name1 name2 audio1 audio2 dets semantic,
     Shm.frame_count
       {| cameras := [(name1, camera 1280 720 audio1);
                      (name2, camera 1280 720 audio2)];
          detectors := dets; birdseye_restream := true;
          semantic_search_enabled := semantic |}
       (256 * 1048576) = Ok 50) ∧
  (∀ cfg,
     birdseye_restream cfg = false →
     PlannerSpec.total_frame_size cfg = Ok (lit 6) →
     Shm.frame_count cfg (100 * 1048576) = Ok 8).
Proof.
  split_and!.
  - apply frame_count_as_plan.
  - intros cfg disk_total p Hp Hav Hsane.
    pose proof Hp as (q & n & Htot & _ & Havail & Hcam & Hq & Hn & Hcount)%compute_inv.
    assert (nonneg q) as Hnn by by eapply quotient_nonneg.
    apply to_int_nonneg in Hn as [_ Hfloor]; [|done].
    unfold PlannerSpec.plan, PlannerSpec.plan_with, PlannerSpec.total_frame_size,
      PlannerSpec.enabled_cameras, PlannerSpec.available.
    rewrite cam_total_as_sum in Hcam.
    destruct (PlannerSpec.sizes _) as [xs|e]; simpl in *; [|done].
    injection Hcam as Hcam. rewrite Hcam, <- min_req_is_reserve, <- Havail, Hq.
    simpl. rewrite Hfloor. simpl. by rewrite Hcount.
  - intros. by vm_compute.
  - intros cfg Hre Htot. rewrite frame_count_as_plan.
    unfold PlannerSpec.plan_with. rewrite Htot, Hre. by vm_compute.
Qed.

Lemma check_shm_formula_witness :
  (∃ p, Shm.compute three_cameras (100 * 1048576) = Ok p ∧
        PlannerSpec.plan (Shm.plan_total_shm p) three_cameras = Ok 8) ∧
  Shm.frame_count three_cameras (100 * 1048576) = Ok 8.
Proof.
  destruct check_shm_formula as (_ & Hfloor & _ & Hsix).
  split.
  - eexists. split; [vm_compute; reflexivity|].
    apply (Hfloor three_cameras (100 * 1048576));
      [vm_compute; reflexivity | vm_compute; reflexivity |].
    repeat constructor; intros _; simpl; lia.
  - apply Hsix; [reflexivity | vm_compute; reflexivity].
Defined.

(** ** [check_shm] and the capture workers *)

Module AppFacts.

Lemma bind_unfold {A B} (m : App A) (k : A → App B) s :
  (m ≫= k) s =
  match m s with
  | (Ok a, s') => k a s'
  | (Raise e, s') => (Raise e, s')
  end.
Proof. done. Qed.

Lemma metrics_lookup_update name name' f ms :
  is_Some (metrics_lookup name' (metrics_update name f ms)) ↔
  is_Some (metrics_lookup name' ms).
Proof.
  induction ms as [|[k m] rest IH]; simpl; [done|].
  destruct (decide (k = name)) as [->|Hne]; simpl.
  - by destruct (decide (name = name')).
  - by destruct (decide (k = name')).
Qed.

Section WithEnv.
Variable env : Env.

Lemma perform_quiet ev s :
  never_raises env →
  perform env ev s = (Ok tt, set_trace (λ t, t ++ [ev]) s).
Proof. intros H. unfold perform. by rewrite H. Qed.

Lemma check_shm_unfold app :
  check_shm env app =
  match Shm.compute (config env) (dev_shm_total env) with
  | Raise e => (Raise e, app)
  | Ok p =>
      let n := Shm.plan_frame_count p in
      let app1 := set_trace (λ t, t ++ [Log DEBUG (ShmCalculated n)])
                    (set_shm_frame_count (Some n) app) in
      if n <? 10 then
        match round0 (add (lit (Shm.plan_min_req_shm p)) (Shm.plan_cam_total p)) with
        | Ok r => (Ok tt, set_trace (λ t, t ++ [Log WARNING (ShmTooSmall r)]) app1)
        | Raise e => (Raise e, app1)
        end
      else (Ok tt, app1)
  end.
Proof.
  unfold check_shm at 1. rewrite bind_unfold. unfold lift.
  destruct (Shm.compute _ _) as [p|e]; [|done]. simpl.
  destruct (Shm.plan_frame_count p <? 10); [|done].
  rewrite bind_unfold.
  by destruct (round0 _).
Qed.

Lemma capture_launch n : ∀ cams app,
  never_raises env →
  shm_frame_count app = Some n →
  Forall (has_metrics app) cams →
  ∃ app',
    for_each cams (λ '(name, camera),
      if negb (enabled camera) then
        info "Capture process not started for disabled camera"
      else
        depth ← gets shm_frame_count;
        match depth with
        | None => raise AttributeError
        | Some n =>
            assign_metrics name (set_capture_process (camera_capture name n));;
            perform env (ProcessStart (camera_capture name n));;
            info "Capture process started"
        end) app = (Ok tt, app') ∧
    trace app' = trace app ++ capture_events n cams ∧
    shm_frame_count app' = Some n.
Proof.
  intros cams app Hq. revert app.
  induction cams as [|[name c] rest IH]; intros app Hn Hms.
  - exists app. simpl. by rewrite app_nil_r.
  - apply Forall_cons in Hms as [[m Hm] Hrest].
    simpl. rewrite bind_unfold.
    destruct (enabled c); simpl.
    + unfold gets at 1. rewrite bind_unfold, Hn.
      rewrite bind_unfold. unfold assign_metrics at 1.
      rewrite bind_unfold. unfold gets at 1. simpl in Hm. rewrite Hm.
      unfold modify at 1. rewrite bind_unfold, perform_quiet by done.
      unfold info, emit, modify.
      match goal with |- context [for_each rest ?f ?s] =>
        destruct (IH s) as (app' & Hrun & Htr & Hn') end.
      { done. }
      { eapply Forall_impl; [exact Hrest|]. intros nc Hnc. unfold has_metrics in *.
        simpl. by apply metrics_lookup_update. }
      exists app'. split_and!; [done| |done].
      rewrite Htr. simpl. by rewrite <- !app_assoc.
    + unfold info, emit, modify.
      match goal with |- context [for_each rest ?f ?s] =>
        destruct (IH s) as (app' & Hrun & Htr & Hn') end; [done|done|].
      exists app'. split_and!; [done| |done].
      rewrite Htr. simpl. by rewrite <- !app_assoc.
Qed.

End WithEnv.
End AppFacts.

Import AppFacts.

Import ShmRange.

(** The bound on the number of pixels is what keeps the floats finite: at
    [2^1023 + 2^1022] pixels, more than any frame can hold, the summed frame
    size is infinite, the frame count is 0, and [round] of the recommended
    size raises. *)
Lemma unbounded_resolution_overflows :
  (∃ p, Shm.compute wide_camera 1000000000 = Ok p ∧
        Shm.plan_frame_count p = 0) ∧
  (check_shm (quiet_env wide_camera 1000000000) (new_app ∅)).1 = Raise OverflowError.
Proof. split; [eexists; split; by vm_compute | by vm_compute]. Qed.

(** C3: when the computed frame count is below 10, and every enabled
    camera has between 0 and [2^64] pixels, [check_shm] returns normally, has
    stored the count in [shm_frame_count], has logged the warning with the
    recommended size [round(min_req_shm + cam_total_frame_size)], and [start]
    goes on with [start_camera_capture_processes], which launches a capture
    worker with that depth for every enabled camera. *)
Theorem low_frame_count_is_a_warning env app p :
  Shm.compute (config env) (dev_shm_total env) = Ok p →
  Shm.plan_frame_count p < 10 →
  Forall bounded_resolution (cameras (config env)) →
  ∃ recommended app',
    round0 (add (lit (Shm.plan_min_req_shm p)) (Shm.plan_cam_total p))
      = Ok recommended ∧
    check_shm env app = (Ok tt, app') ∧
    shm_frame_count app' = Some (Shm.plan_frame_count p) ∧
    trace app' = trace app ++ [Log DEBUG (ShmCalculated (Shm.plan_frame_count p));
                               Log WARNING (ShmTooSmall recommended)] ∧
    (check_shm env ;; start_camera_capture_processes env) app =
      start_camera_capture_processes env app' ∧
    (never_raises env →
     Forall (has_metrics app) (cameras (config env)) →
     ∃ app'',
       start_camera_capture_processes env app' = (Ok tt, app'') ∧
       trace app'' =
         trace app' ++ capture_events (Shm.plan_frame_count p) (cameras (config env))).
Proof.
  intros Hp Hlow Hb.
  destruct (recommended_computable _ _ _ Hb Hp) as [recommended Hrec].
  pose proof (check_shm_unfold env app) as Hrun.
  rewrite Hp in Hrun. cbv zeta in Hrun.
  rewrite Hrec in Hrun.
  destruct (Z.ltb_spec (Shm.plan_frame_count p) 10) as [_|?]; [|lia].
  exists recommended. eexists. split; [exact Hrec|].
  split; [exact Hrun|]. split; [done|]. split.
  { simpl. by rewrite <- app_assoc. }
  split.
  { rewrite bind_unfold. by rewrite Hrun. }
  intros Hq Hms.
  match type of Hrun with
  | _ = (_, ?s) =>
      destruct (capture_launch env (Shm.plan_frame_count p)
                  (cameras (config env)) s Hq eq_refl Hms)
        as (app'' & Hrun' & Htr & _)
  end.
  exists app''. split; [exact Hrun'|exact Htr].
Qed.

Lemma cam_total_unchanged cams : ∀ acc,
  Forall (λ nc : string * CameraConfig, enabled nc.2 = false) cams →
  Shm.cam_total_frame_size cams acc = Ok acc.
Proof.
  induction cams as [|[name c] rest IH]; intros acc Hoff; simpl; [done|].
  apply Forall_cons in Hoff as [Hc Hrest]. simpl in Hc. rewrite Hc. by apply IH.
Qed.

(** C10: with no enabled camera the summed frame size stays 0 and the
    division of [check_shm] raises [ZeroDivisionError], storing nothing;
    conversely [check_shm] returns only if some camera is enabled. *)
Theorem no_enabled_camera_divides_by_zero env app :
  (Forall (λ nc, enabled nc.2 = false) (cameras (config env)) →
   ∀ total, Shm.total_shm (dev_shm_total env) = Ok total →
   Shm.cam_total_frame_size (cameras (config env)) pzero = Ok pzero ∧
   check_shm env app = (Raise ZeroDivisionError, app)) ∧
  (∀ app', check_shm env app = (Ok tt, app') →
   Exists (λ nc, enabled nc.2 = true) (cameras (config env))).
Proof.
  split.
  - intros Hoff total Htotal.
    pose proof (cam_total_unchanged _ pzero Hoff) as Hcam.
    split; [done|].
    rewrite check_shm_unfold. unfold Shm.compute. by rewrite Htotal, Hcam.
  - intros app' Hrun.
    destruct (decide (Exists (λ nc : string * CameraConfig, enabled nc.2 = true)
                        (cameras (config env)))) as [|Hnone]; [done|].
    exfalso. apply not_Exists_Forall in Hnone; [|intros ?; apply _].
    assert (Forall (λ nc : string * CameraConfig, enabled nc.2 = false)
              (cameras (config env))) as Hoff.
    { eapply Forall_impl; [exact Hnone|]. simpl. intros nc Hne.
      by destruct (enabled nc.2). }
    pose proof (cam_total_unchanged _ pzero Hoff) as Hcam.
    rewrite check_shm_unfold in Hrun. unfold Shm.compute in Hrun.
    destruct (Shm.total_shm _); simpl in Hrun; [|done].
    by rewrite Hcam in Hrun.
Qed.

(** ** [detect_raw] *)

Module OnnxFacts.
Import Onnx.

Section WithArrays.

Variable tensor : Type.
Variable shape : Type.
Variable R : Type.
Variable F : Type.
Variable r_negative : R → bool.
Variable r_div : R → Z → R.
Variable to_f32 : R → F.
Variable f_zero : F.
Variable blobFromImage : tensor → shape → bool → result tensor.

Local Abbreviation detector := (Onnx.detector tensor shape R).
Local Abbreviation row := (detection_row r_div to_f32).
Local Abbreviation valid := (valid_prefix r_negative).
Local Abbreviation fill := (Onnx.fill r_negative r_div to_f32).
Local Abbreviation detect_raw := (Onnx.detect_raw r_negative r_div to_f32 f_zero blobFromImage).
Local Abbreviation blank := (zero_row f_zero).
Local Abbreviation populated := (Onnx.populated r_negative r_div to_f32).

Lemma fill_spec (d : detector) : ∀ predictions done,
  (length done ≤ 20)%nat →
  let kept := take (20 - length done) (valid predictions) in
  fill d (length done) predictions (done ++ replicate (20 - length done) blank) =
  done ++ map (row d) kept ++ replicate (20 - length done - length kept) blank.
Proof.
  induction predictions as [|p rest IH]; intros done Hlen; simpl.
  - rewrite take_nil. simpl. by rewrite Nat.sub_0_r.
  - destruct (decide (length done = 20%nat)) as [Hfull|Hroom].
    { rewrite Hfull. simpl. by destruct (r_negative (class_id p)). }
    destruct (r_negative (class_id p)) eqn:Hneg.
    { rewrite take_nil. simpl. by rewrite Nat.sub_0_r. }
    assert (20 - length done = S (20 - S (length done)))%nat as Hk by lia.
    rewrite Hk at 1. simpl replicate.
    rewrite <- (Nat.add_0_r (length done)) at 2.
    rewrite insert_app_r. simpl.
    specialize (IH (done ++ [row d p])).
    rewrite length_app in IH. simpl in IH.
    replace (length done + 1)%nat with (S (length done)) in IH by lia.
    rewrite <- app_assoc in IH. simpl in IH.
    rewrite IH by lia.
    rewrite Hk. simpl. rewrite <- app_assoc. simpl. done.
Qed.

Lemma fill_from_zeros (d : detector) predictions :
  fill d 0 predictions (zeros f_zero) =
  populated d predictions ++ replicate (20 - length (populated d predictions)) blank.
Proof.
  pose proof (fill_spec d predictions [] ltac:(simpl; lia)) as H.
  simpl in H. unfold Onnx.populated. by rewrite length_map.
Qed.

Lemma populated_length (d : detector) predictions :
  (length (populated d predictions) ≤ 20)%nat.
Proof. unfold Onnx.populated. rewrite length_map, length_take. lia. Qed.

(** C4: for a yolonas model whose session returns [predictions],
    [detect_raw] returns an array of 20 rows of 6 entries: the rows of the
    leading predictions with a class id that is not negative, at most 20 of
    them and in order, each [class_id, confidence, y_min/h, x_min/w, y_max/h,
    x_max/w], followed by rows of zeros.  Three valid rows and then a
    sentinel give three populated rows and seventeen rows of zeros. *)
Theorem yolonas_output (d : detector) tensor_input blob predictions others :
  onnx_model_type d = yolonas →
  blobFromImage tensor_input (input_shape (onnx_model d)) (is_bgr (onnx_model_px d)) = Ok blob →
  run (onnx_model d) blob = Ok (predictions :: others) →
  ∃ detections,
    detect_raw d tensor_input = Ok detections ∧
    length detections = 20%nat ∧
    Forall (λ r, length r = 6%nat) detections ∧
    detections =
      populated d predictions ++
      replicate (20 - length (populated d predictions)) blank ∧
    (∀ i p,
       take 20 (valid predictions) !! i = Some p →
       detections !! i =
         Some [ to_f32 (class_id p); to_f32 (confidence p);
                to_f32 (r_div (y_min p) (h d)); to_f32 (r_div (x_min p) (w d));
                to_f32 (r_div (y_max p) (h d)); to_f32 (r_div (x_max p) (w d)) ]) ∧
    (∀ i,
       (length (take 20 (valid predictions)) ≤ i < 20)%nat →
       detections !! i = Some (replicate 6 f_zero)) ∧
    (∀ r1 r2 r3 sentinel rest,
       predictions = r1 :: r2 :: r3 :: sentinel :: rest →
       r_negative (class_id r1) = false →
       r_negative (class_id r2) = false →
       r_negative (class_id r3) = false →
       r_negative (class_id sentinel) = true →
       detections = [row d r1; row d r2; row d r3] ++ replicate 17 blank).
Proof.
  intros Hty Hblob Hrun.
  exists (fill d 0 predictions (zeros f_zero)).
  split.
  { unfold Onnx.detect_raw. rewrite Hty. simpl. rewrite Hblob. simpl.
    rewrite Hrun. done. }
  rewrite fill_from_zeros.
  pose proof (populated_length d predictions) as Hle.
  split_and!.
  - rewrite length_app, length_replicate. lia.
  - apply Forall_app. split.
    + unfold Onnx.populated. apply Forall_map, Forall_true. done.
    + apply Forall_replicate. done.
  - done.
  - intros i p Hp. rewrite lookup_app_l.
    + unfold Onnx.populated. by rewrite list_lookup_fmap, Hp.
    + unfold Onnx.populated. rewrite length_map. by eapply lookup_lt_Some.
  - intros i [Hlo Hhi]. unfold Onnx.populated in *. rewrite length_map in *.
    rewrite lookup_app_r by (rewrite length_map; lia).
    rewrite length_map. apply lookup_replicate_2. lia.
  - intros r1 r2 r3 s rest -> H1 H2 H3 Hs.
    unfold Onnx.populated. simpl. rewrite H1, H2, H3, Hs. done.
Qed.

(** C5, amended: for a model type other than yolonas [detect_raw] never
    returns an array; it runs the session on the unprocessed input first,
    then raises the session's error if there is one and else an [Exception]
    that names the model type. *)
Theorem unsupported_model (d : detector) tensor_input :
  onnx_model_type d ≠ yolonas →
  (∀ detections, detect_raw d tensor_input ≠ Ok detections) ∧
  detect_raw d tensor_input =
    match run (onnx_model d) tensor_input with
    | Ok _ => Raise (unsupported (onnx_model_type d))
    | Raise e => Raise e
    end.
Proof.
  intros Hty. unfold Onnx.detect_raw.
  destruct (onnx_model_type d) as [|label]; [done|]. simpl.
  destruct (run (onnx_model d) tensor_input); simpl; split; done.
Qed.

End WithArrays.

End OnnxFacts.

(** ** [start_detectors] and the segments of [/dev/shm] *)

Module DetectorFacts.
Import AppFacts.

Lemma foldl_max_spec xs : ∀ x,
  foldl Z.max x xs ∈ x :: xs ∧ Forall (λ y, y ≤ foldl Z.max x xs) (x :: xs).
Proof.
  induction xs as [|y rest IH]; intros x; simpl.
  - split; [apply list_elem_of_here|]. repeat constructor. lia.
  - destruct (IH (Z.max x y)) as [Hin Hall]. clear IH. split.
    + apply elem_of_cons in Hin as [Heq|Hin]; [|set_solver].
      rewrite Heq. destruct (Z.max_spec x y) as [[_ ->]|[_ ->]]; set_solver.
    + apply Forall_cons in Hall as [Hmax Hrest].
      repeat constructor; [lia|lia|done].
Qed.

Lemma py_max_spec xs m :
  py_max xs = Ok m → m ∈ xs ∧ Forall (λ y, y ≤ m) xs.
Proof.
  destruct xs as [|x rest]; simpl; [done|]. intros [= <-]. apply foldl_max_spec.
Qed.

Section WithEnv.
Variable env : Env.

Lemma largest_frame_frame_sizes :
  largest_frame env = py_max (frame_sizes (config env)).
Proof.
  unfold largest_frame, frame_sizes. f_equal. apply map_ext. by intros [??].
Qed.

Lemma create_in_unfold name app :
  (size ← lift (largest_frame env); shm_create name size) app =
  match largest_frame env with
  | Ok size => shm_create name size app
  | Raise e => (Raise e, app)
  end.
Proof.
  rewrite bind_unfold. unfold lift. by destruct (largest_frame env).
Qed.

Lemma largest_frame_error e : largest_frame env = Raise e → e = ValueError.
Proof.
  unfold largest_frame, py_max. destruct (map _ _); [|done]. by intros [= <-].
Qed.

Lemma acquire_in_existing name app size existing :
  largest_frame env = Ok (Zpos size) →
  dev_shm app !! name = Some (Npos existing) →
  (size ← lift (largest_frame env); shm_create name size) app
    = (Raise FileExistsError, app) ∧
  acquire_shm_in env name app =
    (Ok {| shm_name := name; shm_size := existing |},
     set_trace (λ t, t ++ [ShmAttach name]) app).
Proof.
  intros Hsize Hex. unfold acquire_shm_in, try_except.
  rewrite create_in_unfold, Hsize. unfold shm_create. rewrite Hex.
  split; [done|]. simpl. unfold shm_attach. by rewrite Hex.
Qed.

Lemma acquire_in_empty name app size :
  largest_frame env = Ok (Zpos size) →
  dev_shm app !! name = Some 0%N →
  (size ← lift (largest_frame env); shm_create name size) app
    = (Raise FileExistsError, app) ∧
  acquire_shm_in env name app = (Raise ValueError, app).
Proof.
  intros Hsize Hex. unfold acquire_shm_in, try_except.
  rewrite create_in_unfold, Hsize. unfold shm_create. rewrite Hex.
  split; [done|]. simpl. unfold shm_attach. by rewrite Hex.
Qed.

Lemma acquire_in_fresh name app size :
  largest_frame env = Ok (Zpos size) →
  dev_shm app !! name = None →
  acquire_shm_in env name app =
    (Ok {| shm_name := name; shm_size := size |},
     set_trace (λ t, t ++ [ShmCreate name size])
       (set_dev_shm (insert name (Npos size)) app)).
Proof.
  intros Hsize Hex. unfold acquire_shm_in, try_except.
  rewrite create_in_unfold, Hsize. unfold shm_create. by rewrite Hex.
Qed.

(** Without a detector, or with a largest frame that is not positive,
    nothing is acquired. *)
Lemma acquire_in_invalid name app :
  (∀ size, largest_frame env ≠ Ok (Zpos size)) →
  acquire_shm_in env name app = (Raise ValueError, app).
Proof.
  intros Hbad. unfold acquire_shm_in, try_except. rewrite create_in_unfold.
  destruct (largest_frame env) as [[|size|size]|e] eqn:Hl.
  - done.
  - by destruct (Hbad size).
  - done.
  - by rewrite (largest_frame_error e Hl).
Qed.

Lemma acquire_out_existing name app existing :
  dev_shm app !! ("out-" +:+ name) = Some (Npos existing) →
  shm_create ("out-" +:+ name) (20 * 6 * 4) app = (Raise FileExistsError, app) ∧
  acquire_shm_out name app =
    (Ok {| shm_name := "out-" +:+ name; shm_size := existing |},
     set_trace (λ t, t ++ [ShmAttach ("out-" +:+ name)]) app).
Proof.
  intros Hex. unfold acquire_shm_out, try_except, shm_create. simpl.
  rewrite Hex. split; [done|]. simpl. unfold shm_attach. by rewrite Hex.
Qed.

Lemma acquire_out_empty name app :
  dev_shm app !! ("out-" +:+ name) = Some 0%N →
  shm_create ("out-" +:+ name) (20 * 6 * 4) app = (Raise FileExistsError, app) ∧
  acquire_shm_out name app = (Raise ValueError, app).
Proof.
  intros Hex. unfold acquire_shm_out, try_except, shm_create. simpl.
  rewrite Hex. split; [done|]. simpl. unfold shm_attach. by rewrite Hex.
Qed.

Lemma acquire_out_fresh name app :
  dev_shm app !! ("out-" +:+ name) = None →
  acquire_shm_out name app =
    (Ok {| shm_name := "out-" +:+ name; shm_size := 480 |},
     set_trace (λ t, t ++ [ShmCreate ("out-" +:+ name) 480])
       (set_dev_shm (insert ("out-" +:+ name) 480%N) app)).
Proof.
  intros Hex. unfold acquire_shm_out, try_except, shm_create. simpl.
  by rewrite Hex.
Qed.

(** What an acquisition that returns has done: the handle has the name asked
    for, no object of [/dev/shm] is changed or removed, no other name is
    added, and a name that was absent is now a segment of the size asked
    for, as is the handle. *)
Lemma acquire_in_spec name app size shm app' :
  largest_frame env = Ok (Zpos size) →
  acquire_shm_in env name app = (Ok shm, app') →
  shm_name shm = name ∧
  detection_shms app' = detection_shms app ∧
  (∀ k v, dev_shm app !! k = Some v → dev_shm app' !! k = Some v) ∧
  (∀ k, k ≠ name → dev_shm app' !! k = dev_shm app !! k) ∧
  (dev_shm app !! name = None →
   shm_size shm = size ∧ dev_shm app' !! name = Some (Npos size)).
Proof.
  intros Hsize. destruct (dev_shm app !! name) as [[|existing]|] eqn:Hex.
  - by destruct (acquire_in_empty name app size) as [_ ->].
  - destruct (acquire_in_existing name app size existing) as [_ ->]; [done..|].
    intros [= <- <-]. by split_and!.
  - rewrite (acquire_in_fresh name app size) by done.
    intros [= <- <-]. simpl. split_and!; [done..| | |].
    + intros k v Hk. rewrite lookup_insert_ne; [done|]. intros <-. congruence.
    + intros k Hk. by rewrite lookup_insert_ne.
    + intros _. by rewrite lookup_insert_eq.
Qed.

Lemma acquire_out_spec name app shm app' :
  acquire_shm_out name app = (Ok shm, app') →
  shm_name shm = "out-" +:+ name ∧
  detection_shms app' = detection_shms app ∧
  (∀ k v, dev_shm app !! k = Some v → dev_shm app' !! k = Some v) ∧
  (∀ k, k ≠ "out-" +:+ name → dev_shm app' !! k = dev_shm app !! k) ∧
  (dev_shm app !! ("out-" +:+ name) = None →
   shm_size shm = 480%positive ∧ dev_shm app' !! ("out-" +:+ name) = Some 480%N).
Proof.
  destruct (dev_shm app !! ("out-" +:+ name)) as [[|existing]|] eqn:Hex.
  - by destruct (acquire_out_empty name app) as [_ ->].
  - destruct (acquire_out_existing name app existing) as [_ ->]; [done|].
    intros [= <- <-]. by split_and!.
  - rewrite (acquire_out_fresh name app) by done.
    intros [= <- <-]. simpl. split_and!; [done..| | |].
    + intros k v Hk. rewrite lookup_insert_ne; [done|]. intros <-. congruence.
    + intros k Hk. by rewrite lookup_insert_ne.
    + intros _. by rewrite lookup_insert_eq.
Qed.



Lemma start_detectors_unfold :
  start_detectors env = (acquire_all env (cameras (config env));; launch_all env (detectors (config env))).
Proof. done. Qed.

(** One round of the first loop of [start_detectors]. *)
Lemma acquire_all_cons name c rest app :
  acquire_all env ((name, c) :: rest) app =
  match acquire_shm_in env name app with
  | (Ok shm_in, app1) =>
      match acquire_shm_out name app1 with
      | (Ok shm_out, app2) =>
          acquire_all env rest
            (set_detection_shms (λ l, l ++ [shm_out])
               (set_detection_shms (λ l, l ++ [shm_in]) app2))
      | (Raise e, app2) => (Raise e, app2)
      end
  | (Raise e, app1) => (Raise e, app1)
  end.
Proof.
  unfold acquire_all. simpl. rewrite !bind_unfold.
  destruct (acquire_shm_in env name app) as [[shm_in|e] app1]; [|done].
  cbn beta iota. rewrite bind_unfold.
  destruct (acquire_shm_out name app1) as [[shm_out|e] app2]; [|done].
  cbn beta iota. rewrite bind_unfold. unfold modify at 1.
  cbn beta iota. by unfold modify at 1.
Qed.

Lemma acquire_all_names size : ∀ cams app app',
  largest_frame env = Ok (Zpos size) →
  acquire_all env cams app = (Ok tt, app') →
  map shm_name (detection_shms app') =
    map shm_name (detection_shms app) ++ segment_names cams.
Proof.
  induction cams as [|[name c] rest IH]; intros app app' Hsize.
  - intros [= <-]. simpl. by rewrite app_nil_r.
  - rewrite acquire_all_cons.
    destruct (acquire_shm_in env name app) as [[s1|e] a1] eqn:H1; [|done].
    destruct (acquire_shm_out name a1) as [[s2|e] a2] eqn:H2; [|done].
    destruct (acquire_in_spec _ _ _ _ _ Hsize H1) as (Hn1 & Hd1 & _).
    destruct (acquire_out_spec _ _ _ _ H2) as (Hn2 & Hd2 & _).
    intros Hrun. rewrite (IH _ _ Hsize Hrun). simpl.
    rewrite Hd2, Hd1, !map_app. simpl. by rewrite Hn1, Hn2, <- !app_assoc.
Qed.


(** With no camera nothing is asked of the detectors; with one, the first
    loop returns only if the largest frame is a positive number. *)
Lemma acquire_all_needs_size cams app app' :
  cams ≠ [] →
  acquire_all env cams app = (Ok tt, app') →
  ∃ size, largest_frame env = Ok (Zpos size).
Proof.
  destruct cams as [|[name c] rest]; [done|]. intros _.
  rewrite acquire_all_cons.
  destruct (largest_frame env) as [[|size|size]|e] eqn:Hl; [|by exists size|..];
    by rewrite acquire_in_invalid by (intros size'; rewrite Hl; congruence).
Qed.

Lemma out_name_inj (a b : string) : "out-" +:+ a = "out-" +:+ b → a = b.
Proof. by intros [=]. Qed.

Lemma out_name_ne (a : string) : a ≠ "out-" +:+ a.
Proof.
  intros Heq.
  assert (String.length a = S (S (S (S (String.length a))))) as Hlen
    by (rewrite Heq at 1; reflexivity).
  lia.
Qed.

(** The segments of a camera whose names are its own: once allocated they
    stay so, and they are allocated by the round of that camera. *)
Lemma acquire_all_allocates size name : ∀ cams app app',
  largest_frame env = Ok (Zpos size) →
  unshared name cams →
  acquire_all env cams app = (Ok tt, app') →
  (allocated name size app → allocated name size app') ∧
  (dev_shm app !! name = None →
   dev_shm app !! ("out-" +:+ name) = None →
   name ∈ cams.*1 →
   allocated name size app').
Proof.
  induction cams as [|[n c] rest IH]; intros app app' Hsize Hown.
  - intros [= <-]. split; [done|]. intros _ _ Hin. by apply elem_of_nil in Hin.
  - rewrite acquire_all_cons.
    destruct (acquire_shm_in env n app) as [[s1|e] a1] eqn:H1; [|done].
    destruct (acquire_shm_out n a1) as [[s2|e] a2] eqn:H2; [|done].
    destruct (acquire_in_spec _ _ _ _ _ Hsize H1)
      as (Hn1 & Hd1 & Hkeep1 & Hframe1 & Hnew1).
    destruct (acquire_out_spec _ _ _ _ H2)
      as (Hn2 & Hd2 & Hkeep2 & Hframe2 & Hnew2).
    intros Hrun.
    assert (unshared name rest) as Hown'.
    { intros nc Hnc. apply Hown. by apply list_elem_of_further. }
    destruct (IH _ _ Hsize Hown' Hrun) as [IHkeep IHnew]. clear IH.
    assert (∀ s, s ∈ detection_shms app ∨ s = s1 ∨ s = s2 →
                 s ∈ detection_shms
                       (set_detection_shms (λ l, l ++ [s2])
                          (set_detection_shms (λ l, l ++ [s1]) a2))) as Hshm.
    { intros s Hs. simpl. rewrite Hd2, Hd1, !elem_of_app, !list_elem_of_singleton.
      tauto. }
    split.
    + intros (Hi & Ho & Hsi & Hso). apply IHkeep. split_and!; simpl.
      * by apply Hkeep2, Hkeep1.
      * by apply Hkeep2, Hkeep1.
      * apply Hshm. by left.
      * apply Hshm. by left.
    + intros Hfi Hfo Hin. simpl in Hin.
      destruct (decide (n = name)) as [->|Hneq].
      * apply IHkeep.
        destruct (Hnew1 Hfi) as [Hs1 Hm1].
        destruct Hnew2 as [Hs2 Hm2].
        { rewrite Hframe1; [done|]. intros Heq. by apply (out_name_ne name). }
        split_and!; simpl.
        -- rewrite Hframe2; [done|]. apply out_name_ne.
        -- done.
        -- apply Hshm. right. left. destruct s1. simpl in *. congruence.
        -- apply Hshm. right. right. destruct s2. simpl in *. congruence.
      * destruct (Hown (n, c)) as [Hc1 Hc2]; [apply list_elem_of_here|].
        simpl in Hc1, Hc2.
        apply IHnew; simpl.
        -- rewrite Hframe2, Hframe1; [done|congruence|congruence].
        -- rewrite Hframe2, Hframe1; [done|congruence|].
           intros Heq. apply Hneq. symmetry. by apply out_name_inj.
        -- apply elem_of_cons in Hin as [Heq|Hin]; [congruence|done].
Qed.


Lemma launch_all_keeps : ∀ dets app,
  detection_shms (launch_all env dets app).2 = detection_shms app ∧
  dev_shm (launch_all env dets app).2 = dev_shm app.
Proof.
  unfold launch_all.
  induction dets as [|[name d] rest IH]; intros app; [done|].
  simpl. rewrite !bind_unfold. unfold perform.
  destruct (collaborator_raises env _); [done|].
  unfold emit, modify. cbn beta iota.
  match goal with |- context [for_each rest ?f ?s] =>
    destruct (IH s) as [H1 H2] end.
  split; [exact H1|exact H2].
Qed.

End WithEnv.
End DetectorFacts.

Import AppFacts DetectorFacts.


(** C7, amended: whenever [start_detectors] returns, every camera whose
    names [<name>] and [out-<name>] were absent from [/dev/shm] beforehand,
    and are segment names of no other camera, has an input segment of the
    largest [height * width * 3] over the detectors and an output segment
    [out-<name>] of 480 bytes, with handles of these sizes registered. *)
Theorem fresh_segment_sizes env app app' name c :
  start_detectors env app = (Ok tt, app') →
  (name, c) ∈ cameras (config env) →
  dev_shm app !! name = None →
  dev_shm app !! ("out-" +:+ name) = None →
  unshared name (cameras (config env)) →
  ∃ size,
    largest_frame env = Ok (Zpos size) ∧
    Zpos size ∈ frame_sizes (config env) ∧
    Forall (λ y, y ≤ Zpos size) (frame_sizes (config env)) ∧
    allocated name size app'.
Proof.
  intros Hrun Hin Hfi Hfo Hown.
  rewrite start_detectors_unfold, bind_unfold in Hrun.
  destruct (acquire_all env (cameras (config env)) app) as [[[]|e] app1] eqn:H1;
    [|done].
  destruct (acquire_all_needs_size env _ _ _ ltac:(by intros Heq; rewrite Heq in Hin; apply elem_of_nil in Hin) H1)
    as [size Hsize].
  exists size. split; [done|].
  assert (Zpos size ∈ frame_sizes (config env) ∧
          Forall (λ y, y ≤ Zpos size) (frame_sizes (config env))) as [Hmax Hle].
  { apply py_max_spec. by rewrite <- largest_frame_frame_sizes. }
  split; [done|]. split; [done|].
  destruct (acquire_all_allocates env size name _ _ _ Hsize Hown H1) as [_ Hnew].
  destruct (launch_all_keeps env (detectors (config env)) app1) as [Hk1 Hk2].
  rewrite Hrun in Hk1, Hk2. simpl in Hk1, Hk2.
  destruct Hnew as (Ha & Hb & Hc & Hd); [done|done| |].
  { apply list_elem_of_fmap. by exists (name, c). }
  unfold allocated. by rewrite Hk1, Hk2.
Qed.


(** ** The order of events in [start] *)

Module TraceFacts.
Import AppFacts.

Section Emits.
Context {A : Type} (P : event → Prop).

Lemma emits_ret (a : A) : emits P (mret a).
Proof. intros s. exists []. by rewrite app_nil_r. Qed.

Lemma emits_raise e : emits P (raise (A:=A) e).
Proof. intros s. exists []. by rewrite app_nil_r. Qed.

Lemma emits_lift (r : result A) : emits P (lift r).
Proof. intros s. exists []. by rewrite app_nil_r. Qed.

Lemma emits_gets (f : FrigateApp → A) : emits P (gets f).
Proof. intros s. exists []. by rewrite app_nil_r. Qed.

Lemma emits_bind {B} (m : App B) (k : B → App A) :
  emits P m → (∀ b, emits P (k b)) → emits P (m ≫= k).
Proof.
  intros Hm Hk s. rewrite bind_unfold.
  destruct (Hm s) as (evs & Hevs & HP).
  destruct (m s) as [[b|e] s']; simpl in *; [|by exists evs].
  destruct (Hk b s') as (evs' & Hevs' & HP').
  exists (evs ++ evs'). split.
  - by rewrite Hevs', Hevs, app_assoc.
  - by apply Forall_app.
Qed.

Lemma emits_try_except catches (body : App A) handler :
  emits P body → (∀ e, emits P (handler e)) →
  emits P (try_except catches body handler).
Proof.
  intros Hm Hk s. unfold try_except.
  destruct (Hm s) as (evs & Hevs & HP).
  destruct (body s) as [[a|e] s']; simpl in *; [by exists evs|].
  destruct (catches e); [|by exists evs].
  destruct (Hk e s') as (evs' & Hevs' & HP').
  exists (evs ++ evs'). split.
  - by rewrite Hevs', Hevs, app_assoc.
  - by apply Forall_app.
Qed.

End Emits.

Section EmitsUnit.
Context (P : event → Prop).

Lemma emits_modify f :
  (∀ s, trace (f s) = trace s) → emits P (modify f).
Proof. intros Hf s. exists []. simpl. by rewrite Hf, app_nil_r. Qed.

Lemma emits_emit ev : P ev → emits P (emit ev).
Proof. intros HP s. exists [ev]. split; [done|]. by constructor. Qed.

Lemma emits_perform env ev : P ev → emits P (perform env ev).
Proof.
  intros HP. unfold perform.
  destruct (collaborator_raises env ev); [apply emits_raise|by apply emits_emit].
Qed.

Lemma emits_for_each {X} (xs : list X) body :
  (∀ x, emits P (body x)) → emits P (for_each xs body).
Proof.
  intros Hbody. induction xs as [|x rest IH]; simpl.
  - apply emits_ret.
  - apply emits_bind; [apply Hbody|]. intros _. apply IH.
Qed.

Lemma emits_shm_create name size :
  (∀ sz, P (ShmCreate name sz)) → emits P (shm_create name size).
Proof.
  intros HP s. unfold shm_create.
  destruct size as [|sz|sz]; [by exists []; rewrite app_nil_r| |by exists []; rewrite app_nil_r].
  destruct (dev_shm s !! name); [by exists []; rewrite app_nil_r|].
  exists [ShmCreate name sz]. split; [done|]. by constructor.
Qed.

Lemma emits_shm_attach name : P (ShmAttach name) → emits P (shm_attach name).
Proof.
  intros HP s. unfold shm_attach.
  destruct (dev_shm s !! name) as [[|sz]|]; [by exists []; rewrite app_nil_r|
                                              |by exists []; rewrite app_nil_r].
  exists [ShmAttach name]. split; [done|]. by constructor.
Qed.

Lemma emits_shm_unlink shm : P (ShmUnlink (shm_name shm)) → emits P (shm_unlink shm).
Proof.
  intros HP s. unfold shm_unlink.
  destruct (dev_shm s !! shm_name shm); [|by exists []; rewrite app_nil_r].
  exists [ShmUnlink (shm_name shm)]. split; [done|]. by constructor.
Qed.

End EmitsUnit.

(** ** Rules for triples *)

Lemma triple_bind {A B} Pre Mid Post Err (m : App A) (k : A → App B) :
  triple Pre m Mid Err → (∀ a, triple Mid (k a) Post Err) →
  triple Pre (m ≫= k) Post Err.
Proof.
  intros Hm Hk s Hpre. rewrite bind_unfold.
  specialize (Hm s Hpre).
  destruct (m s) as [[a|e] s']; simpl in *; [|done].
  by apply Hk.
Qed.

Lemma triple_emits {A} (P : event → Prop) Pre Post Err (m : App A) :
  emits P m →
  (∀ t evs, Pre t → Forall P evs → Post (t ++ evs)) →
  (∀ t evs, Pre t → Forall P evs → Err (t ++ evs)) →
  triple Pre m Post Err.
Proof.
  intros Hm Hpost Herr s Hpre.
  destruct (Hm s) as (evs & -> & HP).
  destruct (m s).1; [by apply Hpost|by apply Herr].
Qed.

Lemma triple_perform env ev Pre Post Err :
  (∀ t, Pre t → Post (t ++ [ev])) →
  (∀ t, Pre t → Err t) →
  triple Pre (perform env ev) Post Err.
Proof.
  intros Hpost Herr s Hpre. unfold perform.
  destruct (collaborator_raises env ev); simpl; [by apply Herr|by apply Hpost].
Qed.

Lemma triple_try_except {A} catches Pre Post Mid Err (body : App A) handler :
  triple Pre body Post Mid →
  (∀ e, triple Mid (handler e) Post Err) →
  (∀ t, Mid t → Err t) →
  triple Pre (try_except catches body handler) Post Err.
Proof.
  intros Hm Hk Hsub s Hpre. unfold try_except.
  specialize (Hm s Hpre).
  destruct (body s) as [[a|e] s']; simpl in *; [done|].
  destruct (catches e); [by apply Hk|by apply Hsub].
Qed.

Lemma triple_raise {A} e (Pre Post : list event → Prop) :
  triple Pre (raise (A:=A) e) Post Pre.
Proof. by intros s Hpre. Qed.

Lemma triple_consequence {A} (Pre Pre' Post Post' Err Err' : list event → Prop)
    (m : App A) :
  triple Pre' m Post' Err' →
  (∀ t, Pre t → Pre' t) → (∀ t, Post' t → Post t) → (∀ t, Err' t → Err t) →
  triple Pre m Post Err.
Proof.
  intros Hm H1 H2 H3 s Hpre. specialize (Hm s (H1 _ Hpre)).
  destruct (m s).1; auto.
Qed.

(** ** What each method may emit *)

Ltac emits_step :=
  first
    [ apply emits_ret | apply emits_raise | apply emits_lift | apply emits_gets
    | apply emits_modify; intros ?; reflexivity
    | apply emits_emit; done
    | apply emits_perform; done
    | apply emits_shm_create; intros ?; done
    | apply emits_shm_attach; done
    | apply emits_shm_unlink; done
    | apply emits_bind; [|intros ?]
    | apply emits_for_each; intros ?
    | apply emits_try_except; [|intros ?]
    | match goal with
      | |- emits _ (if ?b then _ else _) => destruct b
      | |- emits _ (match ?x with _ => _ end) => destruct x
      | |- emits _ (let (_, _) := ?x in _) => destruct x
      end ].

Ltac emits_auto := repeat emits_step.

Section Methods.
Variable env : Env.

Lemma release_shms_emits P shms :
  (∀ n, P (ShmClose n)) → (∀ n, P (ShmUnlink n)) →
  emits P (release_shms shms).
Proof.
  intros Hc Hu. induction shms as [|shm rest IH]; simpl; [apply emits_ret|].
  apply emits_bind; [apply emits_modify; by intros ?|]. intros _.
  apply emits_bind; [by apply emits_emit|]. intros _.
  apply emits_bind; [by apply emits_shm_unlink|]. intros _. apply IH.
Qed.

Lemma stop_settled : emits settled (stop env).
Proof.
  unfold stop, terminate_and_join, info.
  emits_auto. apply release_shms_emits; done.
Qed.

Lemma start_detectors_settled : emits settled (start_detectors env).
Proof. unfold start_detectors, acquire_shm_in, acquire_shm_out. emits_auto. Qed.

Lemma start_camera_processors_settled : emits settled (start_camera_processors env).
Proof. unfold start_camera_processors, assign_metrics, info. emits_auto. Qed.

Lemma check_shm_settled : emits settled (check_shm env).
Proof. unfold check_shm. emits_auto. Qed.

Lemma start_camera_capture_processes_settled :
  emits settled (start_camera_capture_processes env).
Proof. unfold start_camera_capture_processes, assign_metrics, info. emits_auto. Qed.

Lemma start_pipeline_settled : emits settled (start_pipeline env).
Proof.
  unfold start_pipeline. 
  apply emits_bind; [apply start_detectors_settled|]; intros _.
  unfold start_video_output_processor, start_ptz_autotracker,
    init_historical_regions, start_detected_frames_processor, info.
  repeat (apply emits_bind; [emits_auto|]; intros _).
  apply start_camera_processors_settled.
Qed.

Lemma start_services_settled : emits settled (start_services env).
Proof.
  unfold start_services, start_audio_processors, start_storage_maintainer,
    init_external_event_processor, start_stats_emitter, init_web_server,
    start_timeline_processor, start_event_processor, start_event_cleanup,
    start_record_cleanup, start_watchdog, init_auth, info.
  emits_auto.
Qed.

(** ** The phases of the trace *)

Lemma unbound_weaken ws t : unbound ws t → unbound [] t.
Proof. intros [H _]. split; [done|constructor]. Qed.

Lemma unbound_app ws t evs :
  unbound ws t → Forall (λ ev, is_bind ev = false) evs → unbound ws (t ++ evs).
Proof.
  intros [Hnb Hws] Hevs. split; [by apply Forall_app|].
  eapply Forall_impl; [exact Hws|]. intros p Hp. simpl in Hp.
  apply elem_of_app. by left.
Qed.

Lemma unbound_started ws t p :
  unbound ws t → unbound (ws ++ [p]) (t ++ [ProcessStart p]).
Proof.
  intros [Hnb Hws]. split.
  - apply Forall_app. split; [done|]. by repeat constructor.
  - apply Forall_app. split.
    + eapply Forall_impl; [exact Hws|]. intros q Hq. simpl in Hq.
      apply elem_of_app. by left.
    + repeat constructor. apply elem_of_app. right. apply list_elem_of_here.
Qed.

Lemma bound_app cfg t evs : bound cfg t → Forall settled evs → bound cfg (t ++ evs).
Proof.
  intros (pre & timeout & post & -> & Hpre & Hpost) Hevs.
  exists pre, timeout, (post ++ evs). split_and!; [|done|by apply Forall_app].
  by rewrite <- app_assoc.
Qed.

Lemma settled_not_bind evs :
  Forall settled evs → Forall (λ ev, is_bind ev = false) evs.
Proof. intros H. eapply Forall_impl; [exact H|]. by intros ev [? _]. Qed.

Lemma ordered_app cfg t evs : ordered cfg t → Forall settled evs → ordered cfg (t ++ evs).
Proof.
  intros [H|H] Hevs; [left|right].
  - apply unbound_app; [done|]. by apply settled_not_bind.
  - by apply bound_app.
Qed.

(** A step that emits no binding keeps the phase before the binding. *)
Lemma triple_unbound {A} ws (m : App A) :
  emits (λ ev, is_bind ev = false) m →
  triple (unbound ws) m (unbound ws) (ordered (config env)).
Proof.
  intros Hm. eapply triple_emits; [exact Hm| |].
  - intros t evs. apply unbound_app.
  - intros t evs Ht Hevs. left. eapply unbound_weaken. by apply unbound_app.
Qed.

(** A step that emits settled events keeps the phase after the binding. *)
Lemma triple_bound {A} (m : App A) :
  emits settled m →
  triple (bound (config env)) m (bound (config env)) (ordered (config env)).
Proof.
  intros Hm. eapply triple_emits; [exact Hm| |].
  - intros t evs. apply bound_app.
  - intros t evs Ht Hevs. right. by apply bound_app.
Qed.

Lemma triple_ordered {A} (m : App A) :
  emits settled m →
  triple (ordered (config env)) m (ordered (config env)) (ordered (config env)).
Proof.
  intros Hm. eapply triple_emits; [exact Hm| |]; intros t evs; apply ordered_app.
Qed.

Lemma triple_start_worker ws p :
  triple (unbound ws) (perform env (ProcessStart p))
    (unbound (ws ++ [p])) (ordered (config env)).
Proof.
  apply triple_perform.
  - intros t. apply unbound_started.
  - intros t Ht. left. by eapply unbound_weaken.
Qed.

Lemma init_embeddings_manager_triple :
  triple (unbound [recording_manager; review_segment_manager])
    (init_embeddings_manager env)
    (unbound (required_workers (config env))) (ordered (config env)).
Proof.
  unfold init_embeddings_manager, required_workers.
  destruct (semantic_search_enabled (config env)); simpl.
  - eapply triple_bind; [apply triple_unbound; emits_auto|]. intros _.
    eapply triple_bind;
      [apply (triple_start_worker [recording_manager; review_segment_manager])|].
    intros _. apply triple_unbound. unfold info. emits_auto.
  - apply triple_unbound. emits_auto.
Qed.

Lemma bind_database_triple :
  triple (unbound (required_workers (config env))) (bind_database env)
    (bound (config env)) (ordered (config env)).
Proof.
  unfold bind_database. apply triple_perform.
  - intros t Ht. eexists t, _, []. by split_and!.
  - intros t Ht. left. by eapply unbound_weaken.
Qed.

Lemma start_supervisor_triple :
  triple (unbound []) (start_supervisor env)
    (bound (config env)) (ordered (config env)).
Proof.
  unfold start_supervisor.
  eapply triple_bind.
  { apply triple_unbound. unfold ensure_dirs. emits_auto. }
  intros _. eapply triple_bind.
  { apply triple_unbound. unfold init_config. emits_auto. }
  intros _. eapply triple_bind.
  { apply triple_unbound. emits_auto. }
  intros _. eapply triple_bind.
  { apply triple_unbound. unfold set_environment_vars. emits_auto. }
  intros _. eapply triple_bind.
  { apply triple_unbound. unfold set_log_levels. emits_auto. }
  intros _. eapply triple_bind.
  { apply triple_unbound. unfold init_queues. emits_auto. }
  intros _. eapply triple_bind.
  { apply triple_unbound. unfold init_database. emits_auto. }
  intros _. eapply triple_bind.
  { apply triple_unbound. unfold init_onvif. emits_auto. }
  intros _. eapply triple_bind.
  { unfold init_recording_manager. eapply triple_bind.
    - apply (triple_start_worker []).
    - intros _. apply triple_unbound. unfold info. emits_auto. }
  intros _. eapply triple_bind.
  { unfold init_review_segment_manager. eapply triple_bind.
    - apply (triple_start_worker [recording_manager]).
    - intros _. apply triple_unbound. unfold info. emits_auto. }
  intros _. eapply triple_bind; [apply init_embeddings_manager_triple|].
  intros _. eapply triple_bind.
  { apply triple_unbound. unfold init_go2rtc. emits_auto. }
  intros _. eapply triple_bind; [apply bind_database_triple|].
  intros _. eapply triple_bind.
  { apply triple_bound. unfold check_db_data_migrations. emits_auto. }
  intros _. eapply triple_bind.
  { apply triple_bound. unfold init_inter_process_communicator. emits_auto. }
  intros _. apply triple_bound. unfold init_dispatcher. emits_auto.
Qed.

Lemma start_triple :
  triple (unbound []) (start env) (ordered (config env)) (ordered (config env)).
Proof.
  unfold start.
  eapply triple_bind.
  { apply triple_unbound. unfold init_logger. emits_auto. }
  intros _. eapply triple_bind.
  { apply triple_unbound. unfold info. emits_auto. }
  intros _. eapply triple_bind.
  { eapply triple_try_except with (Mid := ordered (config env)).
    - apply start_supervisor_triple.
    - intros e.
      eapply triple_bind; [apply triple_ordered; emits_auto|]. intros _.
      eapply triple_bind; [apply triple_ordered; emits_auto|]. intros _.
      apply triple_raise.
    - done. }
  intros _. eapply triple_consequence with (Pre' := ordered (config env));
    [|by right|done|done].
  eapply triple_bind; [apply triple_ordered, start_pipeline_settled|].
  intros _. eapply triple_bind; [apply triple_ordered, check_shm_settled|].
  intros _. eapply triple_bind;
    [apply triple_ordered, start_camera_capture_processes_settled|].
  intros _. eapply triple_bind; [apply triple_ordered, start_services_settled|].
  intros _. eapply triple_bind; [apply triple_ordered; emits_auto|].
  intros _. eapply triple_bind; [apply triple_ordered; unfold info; emits_auto|].
  intros _. apply triple_ordered, stop_settled.
Qed.

End Methods.

(** A trace that holds one binding splits around it in one way only. *)
Lemma split_at_bind (pre pre' post post' : list event) ev ev' :
  pre ++ ev :: post = pre' ++ ev' :: post' →
  is_bind ev = true →
  Forall (λ e, is_bind e = false) pre' →
  Forall (λ e, is_bind e = false) post' →
  pre = pre' ∧ post = post'.
Proof.
  revert pre'. induction pre as [|x pre IH]; intros pre' Heq Hev Hpre' Hpost'.
  - destruct pre' as [|y pre']; simpl in Heq.
    + by injection Heq as _ ->.
    + injection Heq as -> _. apply Forall_cons in Hpre' as [Hy _]. congruence.
  - destruct pre' as [|y pre']; simpl in Heq.
    + injection Heq as -> Heq. exfalso.
      assert (ev ∈ post') as Hin.
      { rewrite <- Heq. apply elem_of_app. right. apply list_elem_of_here. }
      rewrite Forall_forall in Hpost'. apply Hpost' in Hin. congruence.
    + injection Heq as -> Heq. apply Forall_cons in Hpre' as [_ Hpre'].
      destruct (IH pre' Heq Hev Hpre' Hpost') as [-> ->]. done.
Qed.

End TraceFacts.

Import TraceFacts.

(** C8: wherever [DatabaseBind] occurs in the trace of [start], the
    recording manager, the review segment manager and, when semantic search
    is enabled, the embeddings manager were started before it, nothing was
    bound before it, and none of the three is started after it. *)
Theorem database_bound_after_store_workers env segments pre timeout post :
  trace (start env (new_app segments)).2 = pre ++ DatabaseBind timeout :: post →
  ProcessStart recording_manager ∈ pre ∧
  ProcessStart review_segment_manager ∈ pre ∧
  (semantic_search_enabled (config env) = true →
   ProcessStart embeddings_manager ∈ pre) ∧
  Forall (λ ev, is_bind ev = false) pre ∧
  Forall (λ ev, starts_store_worker ev = false) post.
Proof.
  intros Hsplit.
  pose proof (start_triple env (new_app segments)) as H.
  assert (ordered (config env) (trace (start env (new_app segments)).2)) as Hord.
  { destruct (start env (new_app segments)).1; apply H; by split. }
  clear H. rewrite Hsplit in Hord.
  destruct Hord as [[Hnb _]|(pre' & timeout' & post' & Heq & [Hnb Hws] & Hpost)].
  { apply Forall_app in Hnb as [_ Hnb]. by apply Forall_cons in Hnb as [? _]. }
  apply split_at_bind in Heq as [-> ->];
    [|done|done|by apply settled_not_bind].
  unfold required_workers in Hws.
  split_and!.
  - destruct (semantic_search_enabled _); by apply Forall_cons in Hws as [? _].
  - destruct (semantic_search_enabled _);
      apply Forall_cons in Hws as [_ Hws]; by apply Forall_cons in Hws as [? _].
  - intros Hsem. rewrite Hsem in Hws.
    apply Forall_cons in Hws as [_ Hws]. apply Forall_cons in Hws as [_ Hws].
    by apply Forall_cons in Hws as [? _].
  - done.
  - eapply Forall_impl; [exact Hpost|]. by intros ev [_ ?].
Qed.

(** ** Concrete runs *)



Lemma low_frame_count_witness :
  ∃ app' app'',
    check_shm warned_env warned_app = (Ok tt, app') ∧
    shm_frame_count app' = Some 8 ∧
    start_camera_capture_processes warned_env app' = (Ok tt, app'') ∧
    trace app'' =
      [ Call "FrigateConfig.parse_file";
        Log DEBUG (ShmCalculated 8); Log WARNING (ShmTooSmall 56);
        ProcessStart (camera_capture "a" 8); Log INFO (Text "Capture process started");
        ProcessStart (camera_capture "b" 8); Log INFO (Text "Capture process started");
        ProcessStart (camera_capture "c" 8); Log INFO (Text "Capture process started") ].
Proof.
  assert (∃ p, Shm.compute (config warned_env) (dev_shm_total warned_env) = Ok p ∧
               Shm.plan_frame_count p = 8 ∧
               round0 (add (lit (Shm.plan_min_req_shm p)) (Shm.plan_cam_total p)) = Ok 56)
    as (p & Hp & Hn & Hrec).
  { eexists. split; [vm_compute; reflexivity|]. split; by vm_compute. }
  destruct (low_frame_count_is_a_warning warned_env warned_app p Hp) as
    (recommended & app' & Hrec' & Hrun & Hcount & Htrace & _ & Hlaunch);
    [rewrite Hn; lia| |].
  { repeat (apply Forall_cons; split; [intros _; simpl; lia|]). constructor. }
  assert (recommended = 56) as -> by congruence.
  destruct Hlaunch as (app'' & Hrun' & Htrace').
  { intros ev. reflexivity. }
  { repeat constructor; by eexists. }
  exists app', app''. split; [exact Hrun|]. split; [by rewrite Hcount, Hn|].
  split; [exact Hrun'|]. rewrite Htrace', Htrace, Hn. reflexivity.
Defined.

Lemma no_enabled_camera_witness :
  check_shm (quiet_env no_camera_config (256 * 1048576)) (new_app ∅)
    = (Raise ZeroDivisionError, new_app ∅) ∧
  Exists (λ nc, enabled nc.2 = true) (cameras one_camera).
Proof.
  split.
  - destruct (no_enabled_camera_divides_by_zero
                (quiet_env no_camera_config (256 * 1048576)) (new_app ∅))
      as [Hzero _].
    eapply Hzero; [repeat constructor|vm_compute; reflexivity].
  - destruct (no_enabled_camera_divides_by_zero
                (quiet_env one_camera (256 * 1048576)) (new_app ∅))
      as [_ Hsome].
    eapply Hsome. vm_compute. reflexivity.
Defined.

Lemma yolonas_output_witness :
  ∃ detections,
    f32_detect_raw (detector_of yolonas (Ok [raw_output])) tt = Ok detections ∧
    length detections = 20%nat ∧
    take 3 detections =
      [ [F32.of_int 0; F32.of_scaled 115 (-7); F32.of_scaled 1 (-1);
         F32.of_scaled 1 (-2); F32.of_int 1; F32.of_scaled 3 (-2)];
        [F32.of_int 2; F32.of_scaled 96 (-7); F32.of_int 0;
         F32.of_int 0; F32.of_int 1; F32.of_int 1];
        [F32.of_int 16; F32.of_scaled 64 (-7); F32.of_scaled 1 (-2);
         F32.of_scaled 1 (-1); F32.of_scaled 3 (-2); F32.of_int 1] ] ∧
    drop 3 detections = replicate 17 (replicate 6 F32.zero).
Proof.
  destruct (OnnxFacts.yolonas_output unit unit spec_float spec_float
              F32.negative F32.div_int id F32.zero (λ t _ _, Ok t)
              (detector_of yolonas (Ok [raw_output])) tt tt raw_output [])
    as (detections & Hrun & Hlen & _ & _ & _ & _ & Hthree); [reflexivity..|].
  exists detections. split; [exact Hrun|]. split; [exact Hlen|].
  rewrite (Hthree _ _ _ _ _ eq_refl); [|by vm_compute..].
  split; by vm_compute.
Defined.

(** C5, as stated, fails: when the session itself raises on the
    unprocessed input, [detect_raw] ends with the session's error and not
    with the unsupported-model exception, so the session is run before the
    model type is rejected. *)
Lemma unsupported_model_runs_first :
  f32_detect_raw
    (detector_of (other_model "yolov8") (Raise (ExternalError "onnxruntime"))) tt
    = Raise (ExternalError "onnxruntime") ∧
  Raise (ExternalError "onnxruntime")
    ≠ Raise (A:=list (list spec_float)) (Onnx.unsupported (other_model "yolov8")).
Proof. split; [reflexivity|discriminate]. Qed.

Lemma unsupported_model_witness :
  f32_detect_raw (detector_of (other_model "yolov8") (Ok [raw_output])) tt
    = Raise (PyException
        "yolov8 is currently not supported for rocm. See the docs for more info on supported models.").
Proof.
  destruct (OnnxFacts.unsupported_model unit unit spec_float spec_float
              F32.negative F32.div_int id F32.zero (λ t _ _, Ok t)
              (detector_of (other_model "yolov8") (Ok [raw_output])) tt)
    as [_ Hrun]; [discriminate|].
  unfold f32_detect_raw. rewrite Hrun. reflexivity.
Defined.

(** C7, as stated, fails: a segment named after the camera that is left in
    [/dev/shm] with 150528 bytes is attached as it is, while the largest
    detector frame is 307200 bytes. *)
Lemma stale_segment_keeps_its_size :
  largest_frame semantic_env = Ok 307200 ∧
  detection_shms (start_detectors semantic_env (new_app stale_shm)).2 =
    [ {| shm_name := "front"; shm_size := 150528 |};
      {| shm_name := "out-front"; shm_size := 480 |} ].
Proof. split; by vm_compute. Qed.



Lemma fresh_segment_sizes_witness :
  ∃ app',
    start_detectors two_camera_env (new_app stale_shm) = (Ok tt, app') ∧
    allocated "back" 307200 app' ∧
    detection_shms app' !! 0%nat = Some {| shm_name := "front"; shm_size := 150528 |}.
Proof.
  eexists. split; [vm_compute; reflexivity|].
  split; [|by vm_compute].
  match goal with |- allocated _ _ ?app' =>
    destruct (fresh_segment_sizes two_camera_env (new_app stale_shm) app'
                "back" hd720)
      as (size & Hsize & _ & _ & Halloc)
  end.
  - by vm_compute.
  - apply list_elem_of_further, list_elem_of_here.
  - by vm_compute.
  - by vm_compute.
  - intros nc Hin.
    repeat (apply elem_of_cons in Hin as [->|Hin]; [by split|]).
    by apply elem_of_nil in Hin.
  - assert (size = 307200%positive) as -> by (vm_compute in Hsize; congruence).
    exact Halloc.
Defined.

Lemma database_bound_witness :
  trace semantic_run.2 !! 17%nat = Some (DatabaseBind 60) ∧
  ProcessStart recording_manager ∈ take 17 (trace semantic_run.2) ∧
  ProcessStart review_segment_manager ∈ take 17 (trace semantic_run.2) ∧
  ProcessStart embeddings_manager ∈ take 17 (trace semantic_run.2) ∧
  Forall (λ ev, starts_store_worker ev = false) (drop 18 (trace semantic_run.2)).
Proof.
  assert (trace (start semantic_env (new_app ∅)).2 =
          take 17 (trace semantic_run.2) ++
          DatabaseBind 60 :: drop 18 (trace semantic_run.2)) as Hsplit
    by by vm_compute.
  destruct (database_bound_after_store_workers semantic_env ∅ _ _ _ Hsplit)
    as (Hrec & Hrev & Hemb & _ & Hpost).
  split; [by vm_compute|]. split; [exact Hrec|]. split; [exact Hrev|].
  split; [by apply Hemb|exact Hpost].
Defined.

(** C9, at the failing input: a run with semantic search enabled ends in
    [os._exit(0)] with every segment released, the recording and review
    segment managers joined, and the embeddings manager started but neither
    terminated nor joined. *)
Theorem embeddings_manager_never_stopped :
  semantic_run.1 = Raise (OsExit 0) ∧
  detection_shms semantic_run.2 = [] ∧
  dev_shm semantic_run.2 = ∅ ∧
  ProcessStart embeddings_manager ∈ trace semantic_run.2 ∧
  (ProcessTerminate embeddings_manager ∉ trace semantic_run.2) ∧
  (ProcessJoin embeddings_manager ∉ trace semantic_run.2) ∧
  ProcessJoin recording_manager ∈ trace semantic_run.2 ∧
  ProcessJoin review_segment_manager ∈ trace semantic_run.2.
Proof.
  split_and!; try (by vm_compute); (apply (bool_decide_unpack _); by vm_compute).
Qed.

(** * Further properties *)

Import FloatRange.

Module ShmMore.

Lemma cam_total_by_resolution cams cams' : ∀ acc,
  map (λ nc : string * CameraConfig, detect nc.2)
      (filter (λ nc, enabled nc.2 = true) cams) =
  map (λ nc : string * CameraConfig, detect nc.2)
      (filter (λ nc, enabled nc.2 = true) cams') →
  Shm.cam_total_frame_size cams acc = Shm.cam_total_frame_size cams' acc.
Proof.
  revert cams'. induction cams as [|[name c] rest IH]; intros cams'.
  - induction cams' as [|[name' c'] rest' IH']; intros acc Heq; [done|].
    simpl. destruct (enabled c') eqn:Hen.
    + rewrite filter_cons_True in Heq by done. done.
    + rewrite filter_cons_False in Heq by (simpl; congruence). by apply IH'.
  - intros acc Heq. simpl. destruct (enabled c) eqn:Hen.
    + rewrite filter_cons_True in Heq by done. simpl in Heq.
      revert acc Heq. induction cams' as [|[name' c'] rest' IH']; intros acc Heq.
      { done. }
      simpl. destruct (enabled c') eqn:Hen'.
      * rewrite filter_cons_True in Heq by done. simpl in Heq.
        injection Heq as Hd Heq. unfold Shm.frame_size. rewrite Hd.
        destruct (of_int _); simpl; [|done]. by apply IH.
      * rewrite filter_cons_False in Heq by (simpl; congruence). by apply IH'.
    + rewrite filter_cons_False in Heq by (simpl; congruence). by apply IH.
Qed.

Lemma ltb_pzero_negative x :
  ltb x pzero = true →
  match x with S754_finite s _ _ | S754_infinity s => s = true | _ => False end.
Proof. destruct x as [s|s| |s m e]; try destruct s; done. Qed.

Lemma binary_round_aux_nonpos m e l : nonpos (binary_round_aux prec emax true m e l).
Proof.
  pose proof (binary_round_aux_sign true m e l) as H.
  by destruct (binary_round_aux prec emax true m e l).
Qed.

Lemma div_negative x y :
  ltb x pzero = true → nonneg y → is_zero y = false → nonpos (div x y).
Proof.
  intros Hx%ltb_pzero_negative. unfold div.
  destruct x as [sx|sx| |sx mx ex], y as [sy|sy| |sy my ey]; simpl;
    intros Hy Hz; subst; try done.
  unfold SFdiv.
  destruct (SFdiv_core_binary _ _ _ _ _ _) as [[mz ez] lz].
  apply binary_round_aux_nonpos.
Qed.

Lemma to_int_nonpos x n : nonpos x → to_int x = Ok n → n ≤ 0.
Proof.
  destruct x as [s|s| |s m e]; simpl; try done.
  - by intros _ [= <-].
  - intros ->. pose proof (magnitude_pos m e) as [Hn Hd].
    destruct (magnitude m e) as [a d]; simpl in *.
    intros [= <-]. assert (0 ≤ a `div` d) by (apply Z.div_pos; lia). lia.
Qed.

End ShmMore.

Import ShmMore.

(** X1: the plan of [check_shm] depends on the configuration only through
    the restream flag and the resolutions of the enabled cameras, in order:
    disabled cameras, camera names and audio settings do not count. *)
Theorem plan_depends_on_enabled_resolutions cfg cfg' disk_total :
  birdseye_restream cfg = birdseye_restream cfg' →
  enabled_resolutions cfg = enabled_resolutions cfg' →
  Shm.compute cfg disk_total = Shm.compute cfg' disk_total.
Proof.
  intros Hre Hres. unfold Shm.compute, Shm.min_req_shm. rewrite Hre.
  by rewrite (cam_total_by_resolution (cameras cfg) (cameras cfg') pzero Hres).
Qed.

Lemma plan_depends_on_enabled_resolutions_witness :
  Shm.compute renamed_cameras (100 * 1048576) =
  Shm.compute three_cameras (100 * 1048576).
Proof.
  apply plan_depends_on_enabled_resolutions; reflexivity.
Defined.

(** X2: when the capacity of [/dev/shm] is below the reserve, the frame
    count that [check_shm] computes is never positive, for cameras whose
    resolution is not a negative number of pixels. *)
Theorem frame_count_below_reserve cfg disk_total p :
  Shm.compute cfg disk_total = Ok p →
  ltb (Shm.plan_available_shm p) pzero = true →
  Forall sane_resolution (cameras cfg) →
  Shm.plan_frame_count p ≤ 0.
Proof.
  intros Hp Hav Hsane.
  pose proof Hp as (q & n & _ & _ & _ & Hcam & Hq & Hn & ->)%compute_inv.
  apply truediv_Ok in Hq as [Hz ->].
  assert (nonpos (div (Shm.plan_available_shm p) (Shm.plan_cam_total p))) as Hnp.
  { apply div_negative; [done| |done].
    by apply (cam_total_nonneg (cameras cfg) pzero). }
  apply to_int_nonpos in Hn; [lia|done].
Qed.

Lemma frame_count_below_reserve_witness :
  ∃ p, Shm.compute tiny_shm_config (32 * 1048576) = Ok p ∧
       Shm.plan_frame_count p = -16 ∧ Shm.plan_frame_count p ≤ 0.
Proof.
  eexists. split; [vm_compute; reflexivity|]. split; [reflexivity|].
  match goal with
  | |- Shm.plan_frame_count ?p ≤ 0 =>
      apply (frame_count_below_reserve tiny_shm_config (32 * 1048576) p);
        [vm_compute; reflexivity | vm_compute; reflexivity |]
  end.
  repeat constructor; intros _; simpl; lia.
Defined.

Module OnnxMore.
Import Onnx.

Lemma append_options_map providers : ∀ options,
  OnnxInit.append_options providers options =
  options ++ map OnnxInit.options_for providers.
Proof.
  induction providers as [|p rest IH]; intros options; simpl.
  - by rewrite app_nil_r.
  - by rewrite IH, <- app_assoc.
Qed.

Section WithArrays.

Variable tensor : Type.
Variable shape : Type.
Variable R : Type.
Variable F : Type.
Variable r_negative : R → bool.
Variable r_div : R → Z → R.
Variable to_f32 : R → F.
Variable f_zero : F.
Variable blobFromImage : tensor → shape → bool → result tensor.

Local Abbreviation detector := (Onnx.detector tensor shape R).
Local Abbreviation row := (detection_row r_div to_f32).
Local Abbreviation valid := (valid_prefix r_negative).
Local Abbreviation detect_raw :=
  (Onnx.detect_raw r_negative r_div to_f32 f_zero blobFromImage).
Local Abbreviation blank := (zero_row f_zero).

Lemma valid_prefix_app kept rest :
  Forall (λ p, r_negative (class_id p) = false) kept →
  valid (kept ++ rest) = kept ++ valid rest.
Proof.
  induction 1 as [|p kept Hp _ IH]; simpl; [done|]. by rewrite Hp, IH.
Qed.

Lemma detect_raw_inv (d : detector) tensor_input detections :
  detect_raw d tensor_input = Ok detections →
  onnx_model_type d = yolonas ∧
  ∃ blob predictions others,
    blobFromImage tensor_input (input_shape (onnx_model d))
      (is_bgr (onnx_model_px d)) = Ok blob ∧
    run (onnx_model d) blob = Ok (predictions :: others) ∧
    detections = Onnx.fill r_negative r_div to_f32 d 0 predictions (zeros f_zero).
Proof.
  unfold Onnx.detect_raw.
  destruct (onnx_model_type d) as [|label]; simpl.
  - destruct (blobFromImage _ _ _) as [blob|e]; simpl; [|done].
    destruct (run (onnx_model d) blob) as [[|predictions others]|e] eqn:Hrun;
      simpl; [done| |done].
    intros [= <-]. split; [done|]. by exists blob, predictions, others.
  - by destruct (run (onnx_model d) tensor_input).
Qed.

Lemma detect_raw_yolonas (d : detector) tensor_input blob predictions others :
  onnx_model_type d = yolonas →
  blobFromImage tensor_input (input_shape (onnx_model d))
    (is_bgr (onnx_model_px d)) = Ok blob →
  run (onnx_model d) blob = Ok (predictions :: others) →
  detect_raw d tensor_input =
    Ok (Onnx.fill r_negative r_div to_f32 d 0 predictions (zeros f_zero)).
Proof.
  intros Hty Hblob Hrun. unfold Onnx.detect_raw. rewrite Hty. simpl.
  rewrite Hblob. simpl. by rewrite Hrun.
Qed.

(** X3: whatever the model type, the session and the input, an array that
    [detect_raw] returns has 20 rows of 6 entries (the 480 bytes of the
    output segment, as float32), and only a yolonas detector returns one. *)
Theorem detect_raw_shape (d : detector) tensor_input detections :
  detect_raw d tensor_input = Ok detections →
  onnx_model_type d = yolonas ∧
  length detections = 20%nat ∧
  Forall (λ r, length r = 6%nat) detections.
Proof.
  intros (Hty & blob & predictions & others & _ & _ & ->)%detect_raw_inv.
  rewrite (OnnxFacts.fill_from_zeros tensor shape R F r_negative r_div to_f32 f_zero).
  pose proof (OnnxFacts.populated_length tensor shape R F r_negative r_div to_f32
                d predictions) as Hle.
  assert (length (Onnx.populated r_negative r_div to_f32 d predictions ++
                  replicate (20 - length (Onnx.populated r_negative r_div to_f32
                                            d predictions)) blank) = 20%nat) as Hlen.
  { rewrite length_app, length_replicate. lia. }
  split_and!; [done|done|].
  apply Forall_app. split.
  - unfold Onnx.populated. apply Forall_map, Forall_true. done.
  - by apply Forall_replicate.
Qed.

(** X4: the array depends only on the rows before the stop: when the raw
    output is [kept ++ rest] with no negative class id in [kept], and [rest]
    is empty, or begins with a row of negative class id, or [kept] has 20
    rows or more, the result is the rows of the first 20 of [kept] followed
    by zero rows, whatever [rest] holds. *)
Theorem rows_after_the_stop_are_ignored (d : detector) tensor_input blob
    kept rest others :
  onnx_model_type d = yolonas →
  blobFromImage tensor_input (input_shape (onnx_model d))
    (is_bgr (onnx_model_px d)) = Ok blob →
  run (onnx_model d) blob = Ok ((kept ++ rest) :: others) →
  Forall (λ p, r_negative (class_id p) = false) kept →
  (rest = [] ∨
   (∃ sentinel rest', rest = sentinel :: rest' ∧
                      r_negative (class_id sentinel) = true) ∨
   (20 ≤ length kept)%nat) →
  detect_raw d tensor_input =
    Ok (map (row d) (take 20 kept) ++
        replicate (20 - length (take 20 kept)) blank).
Proof.
  intros Hty Hblob Hrun Hkept Hstop.
  rewrite (detect_raw_yolonas d tensor_input blob (kept ++ rest) others) by done.
  f_equal.
  rewrite (OnnxFacts.fill_from_zeros tensor shape R F r_negative r_div to_f32 f_zero).
  unfold Onnx.populated. rewrite length_map.
  assert (take 20 (valid (kept ++ rest)) = take 20 kept) as ->; [|done].
  rewrite valid_prefix_app by done.
  destruct Hstop as [->|[(s & rest' & -> & Hs)|Hfull]].
  - simpl. by rewrite app_nil_r.
  - simpl. rewrite Hs. by rewrite app_nil_r.
  - by rewrite take_app_le.
Qed.

(** X5: when [onnxruntime] cannot be imported the constructor logs an
    error and raises; otherwise it opens the session of the configured model
    path with every available provider, in order, and with one options dict
    per provider at the same index (the TensorRT caches, the OpenVINO cache
    directory, or an empty dict); the detector it returns divides by the
    height and width of the configured model. *)
Theorem init_provider_options (detector_config : DetectorConfig) :
  (∃ msg, OnnxInit.init (tensor:=tensor) (shape:=shape) (R:=R) None detector_config
            = ([OnnxInit.LogError msg], Raise (ExternalError "ModuleNotFoundError"))) ∧
  (∀ ort : OnnxInit.runtime tensor shape R,
     ∃ options,
       length options = length (OnnxInit.get_available_providers ort) ∧
       (∀ i provider,
          OnnxInit.get_available_providers ort !! i = Some provider →
          options !! i = Some (OnnxInit.options_for provider)) ∧
       (OnnxInit.init (Some ort) detector_config).2 =
         match OnnxInit.InferenceSession ort (model_path (model detector_config))
                 (OnnxInit.get_available_providers ort) options with
         | Ok session =>
             Ok (Build_detector tensor shape R session
                   (model_height (model detector_config))
                   (model_width (model detector_config))
                   (model_type (model detector_config))
                   (input_pixel_format (model detector_config)))
         | Raise e => Raise e
         end).
Proof.
  split; [by eexists|].
  intros ort. exists (map OnnxInit.options_for (OnnxInit.get_available_providers ort)).
  split_and!.
  - by rewrite length_map.
  - intros i provider Hi. by rewrite list_lookup_fmap, Hi.
  - unfold OnnxInit.init. rewrite append_options_map. simpl.
    by destruct (OnnxInit.InferenceSession ort _ _ _).
Qed.

End WithArrays.

End OnnxMore.

Lemma detect_raw_shape_witness :
  ∃ detections,
    f32_detect_raw (detector_of yolonas (Ok [many_rows])) tt = Ok detections ∧
    length detections = 20%nat ∧
    Forall (λ r, length r = 6%nat) detections.
Proof.
  eexists. split; [vm_compute; reflexivity|].
  match goal with
  | |- length ?dets = _ ∧ _ =>
      destruct (OnnxMore.detect_raw_shape unit unit spec_float spec_float
                  F32.negative F32.div_int id F32.zero (λ t _ _, Ok t)
                  (detector_of yolonas (Ok [many_rows])) tt dets)
        as (_ & Hlen & Hrows); [vm_compute; reflexivity|]
  end.
  split; [exact Hlen|exact Hrows].
Defined.

Lemma rows_after_the_stop_witness :
  f32_detect_raw (detector_of yolonas (Ok [raw_output])) tt =
  f32_detect_raw (detector_of yolonas (Ok [take 3 raw_output])) tt ∧
  f32_detect_raw (detector_of yolonas (Ok [many_rows])) tt =
  f32_detect_raw (detector_of yolonas (Ok [take 20 many_rows])) tt.
Proof.
  split.
  - unfold f32_detect_raw.
    rewrite (OnnxMore.rows_after_the_stop_are_ignored unit unit spec_float spec_float
               F32.negative F32.div_int id F32.zero (λ t _ _, Ok t)
               (detector_of yolonas (Ok [raw_output])) tt tt
               (take 3 raw_output) (drop 3 raw_output) []);
      [|reflexivity|reflexivity|reflexivity|repeat constructor|].
    + rewrite (OnnxMore.rows_after_the_stop_are_ignored unit unit spec_float spec_float
                 F32.negative F32.div_int id F32.zero (λ t _ _, Ok t)
                 (detector_of yolonas (Ok [take 3 raw_output])) tt tt
                 (take 3 raw_output) [] []);
        [reflexivity|reflexivity|reflexivity|reflexivity|repeat constructor|by left].
    + right. left. by eexists _, _.
  - unfold f32_detect_raw.
    rewrite (OnnxMore.rows_after_the_stop_are_ignored unit unit spec_float spec_float
               F32.negative F32.div_int id F32.zero (λ t _ _, Ok t)
               (detector_of yolonas (Ok [many_rows])) tt tt
               (take 20 many_rows) (drop 20 many_rows) []);
      [|reflexivity|reflexivity|reflexivity|repeat constructor|].
    + rewrite (OnnxMore.rows_after_the_stop_are_ignored unit unit spec_float spec_float
                 F32.negative F32.div_int id F32.zero (λ t _ _, Ok t)
                 (detector_of yolonas (Ok [take 20 many_rows])) tt tt
                 (take 20 many_rows) [] []);
        [reflexivity|reflexivity|reflexivity|reflexivity|repeat constructor|by left].
    + right. right. simpl. lia.
Defined.

Lemma init_provider_options_witness :
  ∃ d,
    (OnnxInit.init (Some three_provider_runtime) {| model := yolonas_model |}).2 = Ok d ∧
    Onnx.h d = 320 ∧ Onnx.w d = 320 ∧
    OnnxInit.append_options
      (OnnxInit.get_available_providers three_provider_runtime) [] =
      [OnnxInit.tensorrt_options; OnnxInit.openvino_options; []].
Proof.
  destruct (OnnxMore.init_provider_options unit unit spec_float
              {| model := yolonas_model |}) as [_ Hinit].
  destruct (Hinit three_provider_runtime) as (options & _ & _ & Hrun).
  eexists. split; [rewrite Hrun; reflexivity|]. by split_and!.
Defined.

Module DetectorMore.

Lemma emits_for_each_elem {X} P (xs : list X) body :
  (∀ x, x ∈ xs → emits P (body x)) → emits P (for_each xs body).
Proof.
  induction xs as [|x rest IH]; intros Hbody; simpl.
  - apply emits_ret.
  - apply emits_bind; [apply Hbody, list_elem_of_here|]. intros _.
    apply IH. intros y Hy. by apply Hbody, list_elem_of_further.
Qed.

(** What [m] adds to the trace, then what [k] adds. *)
Lemma emits_then {A B} P Q (m : App A) (k : A → App B) :
  emits P m → (∀ a, emits Q (k a)) →
  ∀ s, ∃ evs1 evs2,
    trace ((m ≫= k) s).2 = trace s ++ evs1 ++ evs2 ∧
    Forall P evs1 ∧ Forall Q evs2.
Proof.
  intros Hm Hk s. rewrite bind_unfold.
  destruct (Hm s) as (evs & Hevs & HP).
  destruct (m s) as [[a|e] s']; simpl in *.
  - destruct (Hk a s') as (evs' & Hevs' & HQ).
    exists evs, evs'. by rewrite Hevs', Hevs, app_assoc.
  - exists evs, []. by rewrite app_nil_r.
Qed.

Lemma segment_names_elem (cams : list (string * CameraConfig)) name c :
  (name, c) ∈ cams →
  name ∈ segment_names cams ∧ "out-" +:+ name ∈ segment_names cams.
Proof.
  intros Hin. unfold segment_names.
  split; apply list_elem_of_In, in_flat_map; exists (name, c);
    (split; [by apply list_elem_of_In|]); simpl; auto.
Qed.

Section WithEnv.
Variable env : Env.

Lemma acquire_all_acquires :
  emits (acquires (config env)) (acquire_all env (cameras (config env))).
Proof.
  unfold acquire_all. apply emits_for_each_elem. intros [name c] Hin.
  apply segment_names_elem in Hin as [Hin Hout].
  unfold acquire_shm_in, acquire_shm_out. emits_auto.
Qed.

Lemma launch_all_launches :
  emits (launches (config env)) (launch_all env (detectors (config env))).
Proof.
  unfold launch_all. apply emits_for_each_elem. intros [name d] Hin.
  assert (name ∈ map fst (detectors (config env))) as Hname.
  { apply list_elem_of_fmap. by exists (name, d). }
  emits_auto.
Qed.

(** An acquisition adds at most its segment, and the handle it gives agrees
    with the namespace it leaves. *)
Lemma acquire_in_step name app :
  dev_shm app ⊆ dev_shm (acquire_shm_in env name app).2 ∧
  detection_shms (acquire_shm_in env name app).2 = detection_shms app ∧
  ∀ shm, (acquire_shm_in env name app).1 = Ok shm →
         consistent (dev_shm (acquire_shm_in env name app).2) shm.
Proof.
  destruct (largest_frame env) as [[|size|size]|e] eqn:Hlf;
    try (rewrite acquire_in_invalid by (intros ?; congruence); by split_and!).
  destruct (dev_shm app !! name) as [[|existing]|] eqn:Hex.
  - destruct (acquire_in_empty env name app size) as [_ ->]; [done..|].
    by split_and!.
  - destruct (acquire_in_existing env name app size existing) as [_ ->]; [done..|].
    split_and!; [done..|]. by intros shm [= <-].
  - rewrite (acquire_in_fresh env name app size) by done. simpl.
    split_and!; [by apply insert_subseteq|done|].
    intros shm [= <-]. by apply lookup_insert_eq.
Qed.

Lemma acquire_out_step name app :
  dev_shm app ⊆ dev_shm (acquire_shm_out name app).2 ∧
  detection_shms (acquire_shm_out name app).2 = detection_shms app ∧
  ∀ shm, (acquire_shm_out name app).1 = Ok shm →
         consistent (dev_shm (acquire_shm_out name app).2) shm.
Proof.
  destruct (dev_shm app !! ("out-" +:+ name)) as [[|existing]|] eqn:Hex.
  - destruct (acquire_out_empty name app) as [_ ->]; [done|]. by split_and!.
  - destruct (acquire_out_existing name app existing) as [_ ->]; [done|].
    split_and!; [done..|]. by intros shm [= <-].
  - rewrite (acquire_out_fresh name app) by done. simpl.
    split_and!; [by apply insert_subseteq|done|].
    intros shm [= <-]. by apply lookup_insert_eq.
Qed.

(** Segments are only added, and every handle registered agrees with the
    namespace the loop leaves. *)
Lemma acquire_all_consistent : ∀ cams app,
  dev_shm app ⊆ dev_shm (acquire_all env cams app).2 ∧
  ∃ new,
    detection_shms (acquire_all env cams app).2 = detection_shms app ++ new ∧
    Forall (consistent (dev_shm (acquire_all env cams app).2)) new.
Proof.
  induction cams as [|[name c] rest IH]; intros app.
  { split; [done|]. exists []. by rewrite app_nil_r. }
  rewrite acquire_all_cons.
  destruct (acquire_in_step name app) as (Hsub1 & Hd1 & Hc1).
  destruct (acquire_shm_in env name app) as [[shm1|e] app1]; simpl in *.
  2:{ split; [done|]. exists []. by rewrite app_nil_r. }
  destruct (acquire_out_step name app1) as (Hsub2 & Hd2 & Hc2).
  destruct (acquire_shm_out name app1) as [[shm2|e] app2]; simpl in *.
  2:{ split; [by etrans|]. exists []. by rewrite app_nil_r, Hd2. }
  match goal with |- context [acquire_all env rest ?s] =>
    destruct (IH s) as (Hsub & new & Hnew & Hcons) end.
  simpl in Hsub.
  split; [by etrans; [|etrans; [|exact Hsub]]|].
  exists (shm1 :: shm2 :: new). split.
  - etrans; [exact Hnew|]. simpl. rewrite Hd2, Hd1, <- !app_assoc. done.
  - repeat apply Forall_cons_2; [| |done].
    + unfold consistent in *. eapply lookup_weaken; [|exact Hsub].
      eapply lookup_weaken; [|exact Hsub2]. by apply Hc1.
    + unfold consistent in *. eapply lookup_weaken; [|exact Hsub]. by apply Hc2.
Qed.

(** When every segment exists already, the loop attaches to each and
    creates nothing. *)
Lemma acquire_all_existing size : ∀ cams app,
  largest_frame env = Ok (Zpos size) →
  Forall (λ n, ∃ existing, dev_shm app !! n = Some (Npos existing))
         (segment_names cams) →
  ∃ app',
    acquire_all env cams app = (Ok tt, app') ∧
    dev_shm app' = dev_shm app ∧
    detection_shms app' =
      detection_shms app ++ flat_map (attached (dev_shm app)) (segment_names cams) ∧
    trace app' = trace app ++ map ShmAttach (segment_names cams).
Proof.
  induction cams as [|[name c] rest IH]; intros app Hsize Hall.
  { exists app. simpl. by rewrite !app_nil_r. }
  simpl in Hall. apply Forall_cons in Hall as [[s1 H1] Hall].
  apply Forall_cons in Hall as [[s2 H2] Hall].
  rewrite acquire_all_cons.
  destruct (acquire_in_existing env name app size s1) as [_ ->]; [done..|].
  destruct (acquire_out_existing name
              (set_trace (λ t, t ++ [ShmAttach name]) app) s2) as [_ ->]; [done|].
  match goal with |- context [acquire_all env rest ?s] =>
    destruct (IH s Hsize) as (app' & Hrun & Hshm & Hhs & Htr); [exact Hall|] end.
  exists app'. split; [exact Hrun|]. split; [by rewrite Hshm|]. split.
  - assert (attached (dev_shm app) name =
            [{| shm_name := name; shm_size := s1 |}]) as Ha1
      by (unfold attached; by rewrite H1).
    assert (attached (dev_shm app) ("out-" +:+ name) =
            [{| shm_name := "out-" +:+ name; shm_size := s2 |}]) as Ha2
      by (unfold attached; by rewrite H2).
    rewrite Hhs. simpl. rewrite Ha1, Ha2. simpl. by rewrite <- !app_assoc.
  - rewrite Htr. simpl. by rewrite <- !app_assoc.
Qed.

End WithEnv.
End DetectorMore.

Import DetectorMore.

(** X6: [start_detectors] first acquires segments, then starts detectors:
    what it adds to the trace is a run of creations of and attachments to
    segments of the configured cameras, followed by a run of starts of
    configured detectors, and nothing else, whether it returns or raises. *)
Theorem segments_before_detectors env app :
  ∃ acquired launched,
    trace (start_detectors env app).2 = trace app ++ acquired ++ launched ∧
    Forall (acquires (config env)) acquired ∧
    Forall (launches (config env)) launched.
Proof.
  rewrite start_detectors_unfold.
  apply (emits_then (acquires (config env)) (launches (config env))).
  - apply acquire_all_acquires.
  - intros _. apply launch_all_launches.
Qed.

(** X7: when no detector is configured, or the largest detector frame is
    not positive, [start_detectors] raises [ValueError] at the first camera
    and leaves the application and [/dev/shm] as they were. *)
Theorem start_detectors_needs_a_frame_size env app :
  (∀ size, largest_frame env ≠ Ok (Zpos size)) →
  cameras (config env) ≠ [] →
  start_detectors env app = (Raise ValueError, app).
Proof.
  intros Hbad Hcams. rewrite start_detectors_unfold, bind_unfold.
  destruct (cameras (config env)) as [|[name c] rest]; [done|].
  by rewrite acquire_all_cons, acquire_in_invalid.
Qed.

Lemma start_detectors_needs_a_frame_size_witness :
  start_detectors (quiet_env no_detector_config (1024 * 1048576)) (new_app stale_shm)
    = (Raise ValueError, new_app stale_shm).
Proof.
  apply start_detectors_needs_a_frame_size; [|done].
  intros size. by vm_compute.
Defined.

(** X8: [start_detectors] never removes or resizes a segment that exists
    already, and every handle it registers agrees with [/dev/shm] as it
    leaves it: the segment of that name exists and has the size of the
    handle.  This holds whether it returns or raises. *)
Theorem start_detectors_keeps_segments env app :
  dev_shm app ⊆ dev_shm (start_detectors env app).2 ∧
  ∃ new,
    detection_shms (start_detectors env app).2 = detection_shms app ++ new ∧
    Forall (consistent (dev_shm (start_detectors env app).2)) new.
Proof.
  rewrite start_detectors_unfold, bind_unfold.
  destruct (acquire_all_consistent env (cameras (config env)) app)
    as (Hsub & new & Hnew & Hcons).
  destruct (acquire_all env (cameras (config env)) app) as [[[]|e] app1];
    simpl in *; [|by eauto].
  destruct (launch_all_keeps env (detectors (config env)) app1) as [-> ->].
  eauto.
Qed.

(** X9: a restart finds its segments: when [start_detectors] has returned,
    running it again in a new application on the [/dev/shm] that the first
    run left attaches to every segment, creates none, leaves [/dev/shm] as
    it is and registers handles of the same names and sizes, provided the
    first application had no handle registered before. *)
Theorem restart_attaches env app app1 again size :
  largest_frame env = Ok (Zpos size) →
  detection_shms app = [] →
  start_detectors env app = (Ok tt, app1) →
  dev_shm again = dev_shm app1 →
  detection_shms again = [] →
  dev_shm (start_detectors env again).2 = dev_shm app1 ∧
  detection_shms (start_detectors env again).2 = detection_shms app1 ∧
  ∃ launched,
    trace (start_detectors env again).2 =
      trace again ++ map ShmAttach (segment_names (cameras (config env))) ++ launched ∧
    Forall (launches (config env)) launched.
Proof.
  intros Hsize Hempty Hrun Hshm Hempty'.
  rewrite start_detectors_unfold, bind_unfold in Hrun.
  destruct (acquire_all env (cameras (config env)) app) as [[[]|e] app0] eqn:Hacq;
    [|done].
  pose proof (acquire_all_names env size _ _ _ Hsize Hacq) as Hnames.
  pose proof (acquire_all_consistent env (cameras (config env)) app)
    as (_ & new & Hnew & Hcons).
  rewrite Hacq in Hnew, Hcons. simpl in Hnew, Hcons.
  destruct (launch_all_keeps env (detectors (config env)) app0) as [Hk1 Hk2].
  rewrite Hrun in Hk1, Hk2. simpl in Hk1, Hk2.
  rewrite Hempty in Hnew, Hnames. simpl in Hnew, Hnames.
  rewrite Hnew in Hnames. rewrite <- Hk2 in Hcons.
  assert (Forall (λ n, ∃ existing, dev_shm again !! n = Some (Npos existing))
            (segment_names (cameras (config env)))) as Hall.
  { rewrite <- Hnames, Hshm. apply Forall_fmap.
    eapply Forall_impl; [exact Hcons|]. intros shm Hc. by eexists. }
  assert (flat_map (attached (dev_shm app1))
            (segment_names (cameras (config env))) = new) as Hsame.
  { rewrite <- Hnames. clear -Hcons.
    induction Hcons as [|[n sz] l Hc _ IH]; simpl; [done|].
    unfold attached at 1. simpl. unfold consistent in Hc. simpl in Hc.
    by rewrite Hc, IH. }
  rewrite start_detectors_unfold, bind_unfold.
  destruct (acquire_all_existing env size (cameras (config env)) again Hsize Hall)
    as (again1 & -> & Hshm1 & Hhs1 & Htr1).
  destruct (launch_all_keeps env (detectors (config env)) again1) as [-> ->].
  destruct (launch_all_launches env again1) as (launched & Hevs & Hl).
  split; [by rewrite Hshm1|]. split.
  { rewrite Hhs1, Hempty', Hshm, Hsame, Hk1, Hnew. done. }
  exists launched. split; [|done].
  rewrite Hevs, Htr1, <- app_assoc. done.
Qed.

Lemma restart_attaches_witness :
  detection_shms
    (start_detectors two_camera_env
       (new_app (dev_shm (start_detectors two_camera_env (new_app ∅)).2))).2
  = detection_shms (start_detectors two_camera_env (new_app ∅)).2 ∧
  dev_shm
    (start_detectors two_camera_env
       (new_app (dev_shm (start_detectors two_camera_env (new_app ∅)).2))).2
  = dev_shm (start_detectors two_camera_env (new_app ∅)).2.
Proof.
  destruct (restart_attaches two_camera_env (new_app ∅)
              (start_detectors two_camera_env (new_app ∅)).2
              (new_app (dev_shm (start_detectors two_camera_env (new_app ∅)).2))
              307200)
    as (Hshm & Hhs & _);
    [vm_compute; reflexivity | vm_compute; reflexivity | vm_compute; reflexivity
    | exact eq_refl | exact eq_refl |].
  split; [exact Hhs|exact Hshm].
Defined.

Module ReleaseFacts.

Lemma release_shms_unfold shm rest s :
  release_shms (shm :: rest) s =
  match dev_shm s !! shm_name shm with
  | Some _ =>
      release_shms rest
        (set_trace (λ t, t ++ [ShmUnlink (shm_name shm)])
           (set_dev_shm (delete (shm_name shm))
              (set_trace (λ t, t ++ [ShmClose (shm_name shm)])
                 (set_detection_shms (λ l, take (length l - 1) l) s))))
  | None =>
      (Raise FileNotFoundError,
       set_trace (λ t, t ++ [ShmClose (shm_name shm)])
         (set_detection_shms (λ l, take (length l - 1) l) s))
  end.
Proof.
  simpl. rewrite !bind_unfold. unfold modify at 1. cbn beta iota.
  rewrite bind_unfold. unfold shm_close, emit, modify at 1. cbn beta iota.
  rewrite bind_unfold. unfold shm_unlink. simpl.
  by destruct (dev_shm s !! shm_name shm).
Qed.

(** The only way the loop fails. *)
Lemma release_shms_error l : ∀ s e,
  (release_shms l s).1 = Raise e → e = FileNotFoundError.
Proof.
  induction l as [|shm rest IH]; intros s e; [done|].
  rewrite release_shms_unfold.
  destruct (dev_shm s !! shm_name shm); [apply IH|]. by intros [= <-].
Qed.

Lemma release_shms_missing l : ∀ s,
  Exists (λ shm, dev_shm s !! shm_name shm = None) l →
  (release_shms l s).1 = Raise FileNotFoundError.
Proof.
  induction l as [|shm rest IH]; intros s Hex; [by apply Exists_nil in Hex|].
  rewrite release_shms_unfold.
  destruct (dev_shm s !! shm_name shm) as [sz|] eqn:Hhd; [|done].
  apply IH. apply Exists_cons in Hex as [Hex|Hex]; [congruence|].
  eapply Exists_impl; [exact Hex|]. intros h Hh. simpl.
  destruct (decide (shm_name shm = shm_name h)) as [->|Hne].
  - apply lookup_delete_eq.
  - by rewrite lookup_delete_ne.
Qed.

Lemma release_shms_duplicate l : ∀ s,
  ¬ NoDup (map shm_name l) →
  (release_shms l s).1 = Raise FileNotFoundError.
Proof.
  induction l as [|shm rest IH]; intros s Hdup.
  { destruct Hdup. constructor. }
  rewrite release_shms_unfold.
  destruct (dev_shm s !! shm_name shm) as [sz|] eqn:Hhd; [|done].
  destruct (decide (shm_name shm ∈ map shm_name rest)) as [Hin|Hnotin].
  - apply release_shms_missing.
    apply list_elem_of_fmap in Hin as (h & Hname & Hh).
    apply Exists_exists. exists h. split; [done|]. simpl.
    rewrite <- Hname. apply lookup_delete_eq.
  - apply IH. intros Hnd. apply Hdup. simpl. by constructor.
Qed.

Lemma release_shms_ok l : ∀ s,
  NoDup (map shm_name l) →
  Forall (λ shm, is_Some (dev_shm s !! shm_name shm)) l →
  ∃ s',
    release_shms l s = (Ok tt, s') ∧
    (∀ n, dev_shm s' !! n =
          if decide (n ∈ map shm_name l) then None else dev_shm s !! n) ∧
    detection_shms s' =
      take (length (detection_shms s) - length l) (detection_shms s) ∧
    trace s' = trace s ++ flat_map release_events l.
Proof.
  induction l as [|shm rest IH]; intros s Hnd Hall.
  { exists s. split_and!; [done|done| |by rewrite app_nil_r].
    simpl. by rewrite Nat.sub_0_r, firstn_all. }
  simpl in Hnd. apply NoDup_cons in Hnd as [Hnotin Hnd].
  apply Forall_cons in Hall as [[sz Hsz] Hall].
  rewrite release_shms_unfold, Hsz.
  match goal with |- context [release_shms rest ?s0] =>
    destruct (IH s0 Hnd) as (s' & Hrun & Hshm & Hhs & Htr) end.
  { apply Forall_forall. intros h Hh. rewrite Forall_forall in Hall.
    destruct (Hall h Hh) as [x Hx]. simpl. exists x.
    rewrite lookup_delete_ne; [done|]. intros Heq. apply Hnotin.
    rewrite Heq. apply list_elem_of_fmap. by exists h. }
  exists s'. split; [exact Hrun|]. split_and!.
  - intros n. rewrite Hshm. simpl.
    destruct (decide (n ∈ map shm_name rest)) as [Hin|Hnin].
    + rewrite decide_True; [done|]. by apply list_elem_of_further.
    + destruct (decide (n = shm_name shm)) as [->|Hne].
      * rewrite decide_True by apply list_elem_of_here. apply lookup_delete_eq.
      * rewrite decide_False.
        { by rewrite lookup_delete_ne. }
        intros [?|?]%elem_of_cons; done.
  - rewrite Hhs. simpl. rewrite take_take, length_take. f_equal. lia.
  - rewrite Htr. simpl. by rewrite <- !app_assoc.
Qed.

Lemma elem_of_segment_names (cams : list (string * CameraConfig)) n :
  n ∈ segment_names cams ↔
  n ∈ map fst cams ∨ ∃ m, m ∈ map fst cams ∧ n = "out-" +:+ m.
Proof.
  induction cams as [|[name c] rest IH]; simpl.
  - split; [by intros ?%elem_of_nil|].
    intros [?%elem_of_nil|(m & ?%elem_of_nil & _)]; done.
  - split.
    + intros [->|[->|H]%elem_of_cons]%elem_of_cons.
      * left. apply list_elem_of_here.
      * right. exists name. split; [apply list_elem_of_here|done].
      * apply IH in H as [H|(m & Hm & ->)].
        { left. by apply list_elem_of_further. }
        right. exists m. split; [by apply list_elem_of_further|done].
    + intros [[->|H]%elem_of_cons|(m & [->|Hm]%elem_of_cons & ->)].
      * apply list_elem_of_here.
      * do 2 apply list_elem_of_further. apply IH. by left.
      * apply list_elem_of_further, list_elem_of_here.
      * do 2 apply list_elem_of_further. apply IH. right. by exists m.
Qed.

Lemma segment_names_NoDup cfg :
  no_name_clash cfg → NoDup (segment_names (cameras cfg)).
Proof.
  unfold no_name_clash. generalize (cameras cfg). intros cams.
  induction cams as [|[name c] rest IH]; intros [Hnd Hclash]; simpl.
  { constructor. }
  simpl in Hnd, Hclash. apply NoDup_cons in Hnd as [Hname Hnd].
  apply Forall_cons in Hclash as [Hhd Hclash].
  assert (Forall (λ n, "out-" +:+ n ∉ map fst rest) (map fst rest)) as Hrest.
  { eapply Forall_impl; [exact Hclash|]. intros n Hn Hin. simpl in Hn.
    apply Hn. by apply list_elem_of_further. }
  rewrite Forall_forall in Hclash.
  repeat apply NoDup_cons_2.
  - rewrite elem_of_cons, elem_of_segment_names.
    intros [Heq|[Hin|(m & Hm & ->)]].
    + apply Hhd. rewrite <- Heq. apply list_elem_of_here.
    + done.
    + apply (Hclash m Hm). apply list_elem_of_here.
  - rewrite elem_of_segment_names. intros [Hin|(m & Hm & Heq)].
    + apply Hhd. by apply list_elem_of_further.
    + apply out_name_inj in Heq as <-. done.
  - by apply IH.
Qed.

Lemma segment_names_clash (cams : list (string * CameraConfig)) n :
  n ∈ map fst cams → "out-" +:+ n ∈ map fst cams →
  ¬ NoDup (segment_names cams).
Proof.
  induction cams as [|[name c] rest IH]; simpl; [by intros ?%elem_of_nil|].
  intros Hn Hout Hnd.
  apply NoDup_cons in Hnd as [H1 Hnd]. apply NoDup_cons in Hnd as [H2 Hnd].
  apply elem_of_cons in Hn as [->|Hn]; apply elem_of_cons in Hout as [Heq|Hout].
  - assert (String.length name = S (S (S (S (String.length name))))) as Hlen
      by (rewrite <- Heq at 1; reflexivity).
    lia.
  - apply H2. apply elem_of_segment_names. by left.
  - subst name. apply H1. apply list_elem_of_further.
    apply elem_of_segment_names. right. by exists n.
  - by apply IH.
Qed.

Lemma NoDup_reverse_names (l : list SharedMemory) :
  NoDup (map shm_name (reverse l)) ↔ NoDup (map shm_name l).
Proof.
  change (map shm_name (reverse l)) with (shm_name <$> reverse l).
  rewrite fmap_reverse. by rewrite reverse_Permutation.
Qed.

Lemma elem_of_reverse_names (l : list SharedMemory) n :
  n ∈ map shm_name (reverse l) ↔ n ∈ map shm_name l.
Proof.
  change (map shm_name (reverse l)) with (shm_name <$> reverse l).
  rewrite fmap_reverse. apply elem_of_reverse.
Qed.

Lemma Exists_reverse_2 {X} (P : X → Prop) (l : list X) :
  Exists P l → Exists P (reverse l).
Proof.
  rewrite !Exists_exists. intros (x & Hx & HP). exists x.
  split; [by apply elem_of_reverse|done].
Qed.

End ReleaseFacts.

Import ReleaseFacts.

(** X10: the release loop of [stop] returns exactly when the registered
    handles have pairwise distinct names and every one of their segments
    exists; then the registry is empty, the segments are gone from
    [/dev/shm], which is otherwise unchanged, and each was closed and then
    unlinked, last registered first.  In every other case the loop raises
    [FileNotFoundError]. *)
Theorem release_all_spec s :
  (NoDup (map shm_name (detection_shms s)) →
   Forall (λ shm, is_Some (dev_shm s !! shm_name shm)) (detection_shms s) →
   ∃ s',
     release_all s = (Ok tt, s') ∧
     detection_shms s' = [] ∧
     (∀ n, dev_shm s' !! n =
           if decide (n ∈ map shm_name (detection_shms s)) then None
           else dev_shm s !! n) ∧
     trace s' = trace s ++ flat_map release_events (reverse (detection_shms s))) ∧
  (¬ (NoDup (map shm_name (detection_shms s)) ∧
      Forall (λ shm, is_Some (dev_shm s !! shm_name shm)) (detection_shms s)) →
   (release_all s).1 = Raise FileNotFoundError).
Proof.
  unfold release_all. rewrite bind_unfold. unfold gets. cbn beta iota. split.
  - intros Hnd Hall.
    destruct (release_shms_ok (reverse (detection_shms s)) s)
      as (s' & Hrun & Hshm & Hhs & Htr).
    { by apply NoDup_reverse_names. }
    { by apply Forall_reverse. }
    exists s'. split; [exact Hrun|]. split_and!.
    + rewrite Hhs, length_reverse, Nat.sub_diag. done.
    + intros n. rewrite Hshm.
      pose proof (elem_of_reverse_names (detection_shms s) n) as Hiff.
      destruct (decide (n ∈ map shm_name (reverse (detection_shms s))));
        destruct (decide (n ∈ map shm_name (detection_shms s))); tauto.
    + done.
  - intros Hbad.
    destruct (decide (NoDup (map shm_name (detection_shms s)))) as [Hnd|Hdup].
    + apply release_shms_missing. apply Exists_reverse_2.
      destruct (decide (Forall (λ shm, is_Some (dev_shm s !! shm_name shm))
                          (detection_shms s))) as [Hall|Hmiss]; [by destruct Hbad|].
      apply not_Forall_Exists in Hmiss; [|intros ?; apply _].
      eapply Exists_impl; [exact Hmiss|]. intros h Hh. simpl in Hh.
      by apply eq_None_not_Some.
    + apply release_shms_duplicate. intros Hnd. apply Hdup.
      by apply NoDup_reverse_names.
Qed.

Module ShmTotal.

Lemma of_int_total n :
  Z.abs n < 2 ^ 64 → ∃ x, of_int n = Ok x.
Proof.
  intros Hn. unfold of_int, nearest.
  pose proof (of_scaled_below n 0 64 ltac:(done) Hn ltac:(done) ltac:(done)) as H.
  destruct (of_scaled n 0); try done; by eexists.
Qed.

Lemma frame_size_total c :
  bounded_resolution ("", c) → enabled c = true →
  ∃ x, Shm.frame_size c = Ok x.
Proof.
  intros Hb Hen. specialize (Hb Hen). simpl in Hb.
  destruct (of_int_total (width (detect c) * height (detect c))) as [wh Hwh];
    [lia|].
  unfold Shm.frame_size. rewrite Hwh. by eexists.
Qed.

Lemma cam_total_total cams : ∀ acc,
  Forall bounded_resolution cams →
  ∃ total, Shm.cam_total_frame_size cams acc = Ok total.
Proof.
  induction cams as [|[name c] rest IH]; intros acc Hb; simpl; [by eexists|].
  apply Forall_cons in Hb as [Hc Hrest].
  destruct (enabled c) eqn:Hen; [|by apply IH].
  destruct (frame_size_total c) as [x ->]; [by intros H; apply Hc|done|].
  simpl. by apply IH.
Qed.

End ShmTotal.

Import ShmTotal ReleaseFacts.

(** X11: where every enabled camera has between 0 and [2^64] pixels, the
    loop of [check_shm] that adds up the frame sizes never fails and never
    overflows, however many cameras there are: the sum is a zero or a finite
    positive number below [2^109]. *)
Theorem summed_frame_size_is_finite cfg :
  Forall bounded_resolution (cameras cfg) →
  ∃ total,
    Shm.cam_total_frame_size (cameras cfg) pzero = Ok total ∧
    nonneg total ∧ below 109 total.
Proof.
  intros Hb. destruct (cam_total_total (cameras cfg) pzero Hb) as [total Ht].
  exists total. split; [done|].
  apply cam_total_partial_sum in Ht as (Hn & Hbel & _); [done|done|].
  split; [done|]. split; [done|]. by left.
Qed.

Lemma summed_frame_size_witness :
  ∃ total,
    Shm.cam_total_frame_size (cameras three_cameras) pzero = Ok total ∧
    nonneg total ∧ below 109 total.
Proof.
  apply summed_frame_size_is_finite.
  repeat (apply Forall_cons; split; [intros _; simpl; lia|]). constructor.
Defined.

Lemma release_all_witness :
  ∃ s',
    release_all (start_detectors two_camera_env (new_app ∅)).2 = (Ok tt, s') ∧
    detection_shms s' = [] ∧
    dev_shm s' !! "front"%string = None ∧
    trace s' =
      trace (start_detectors two_camera_env (new_app ∅)).2 ++
      [ ShmClose "out-back"; ShmUnlink "out-back";
        ShmClose "back"; ShmUnlink "back";
        ShmClose "out-front"; ShmUnlink "out-front";
        ShmClose "front"; ShmUnlink "front" ].
Proof.
  destruct (release_all_spec (start_detectors two_camera_env (new_app ∅)).2)
    as [Hok _].
  destruct Hok as (s' & Hrun & Hshms & Hmem & Htr).
  - apply (bool_decide_unpack _). by vm_compute.
  - repeat constructor; by eexists.
  - exists s'. split; [exact Hrun|]. split; [exact Hshms|].
    split; [|exact Htr]. by rewrite Hmem.
Defined.
